(** * GAIN: merge_exercises.py

  A shallow embedding of [merge_exercises] (GAIN/merge_exercises.py) and
  the properties of its merge-and-persist routine.

  Layout:
  - [Exn]      the exception classes that can be raised, with [issubclass];
  - [Json]     the values [json.load] produces and the Python operations
               the script applies to them (subscript, hash, iteration,
               [dict.update], [list.append]);
  - [Merge]    the script itself: the name index, the reconcile loop and,
               over a file store, the whole of [merge_exercises];
  - [Props]    the vocabulary of the statements;
  - [Fixture]  sample records, documents and stores;
  - [JsonFacts], [MergeFacts], [ReplayFacts], [StoreFacts]  lemmas;
  - [LoopSpec] the properties of the reconcile loop;
  - [RunSpec]  the properties of a run of [merge_exercises].

  [json.load] and [json.dump] are parameters of the script. A file is its
  text; the store is a finite map from paths to texts, in which reading a
  missing file is the one operation that fails. *)

From Stdlib Require Import ZArith String Ascii List.
From Stdlib Require Import Floats.SpecFloat.
From stdpp Require Import gmap strings list pretty.

Set Warnings "-register-all".

Local Open Scope string_scope.
Local Open Scope list_scope.

(* ===================================================================== *)
(** ** Exceptions *)
(* ===================================================================== *)

Module Exn.

(** The exception classes the script can meet, with the part of Python's
    class hierarchy they live in. [PyException] is Python's [Exception];
    every class below derives from it. Asynchronous [BaseException]s
    ([KeyboardInterrupt], [SystemExit]) are raised by no statement of the
    script and are left out. *)
Inductive cls :=
| PyException
| OSError
| FileNotFoundError
| ValueError
| JSONDecodeError
| LookupError
| KeyError
| TypeError
| AttributeError.

#[global] Instance cls_eq_dec : EqDecision cls.
Proof. solve_decision. Defined.

(** Direct base class. *)
Definition base (c : cls) : option cls :=
  match c with
  | PyException => None
  | OSError => Some PyException
  | FileNotFoundError => Some OSError
  | ValueError => Some PyException
  | JSONDecodeError => Some ValueError
  | LookupError => Some PyException
  | KeyError => Some LookupError
  | TypeError => Some PyException
  | AttributeError => Some PyException
  end.

Fixpoint issubclass_fuel (fuel : nat) (c d : cls) : bool :=
  if decide (c = d) then true
  else match fuel with
       | O => false
       | S fuel' =>
           match base c with
           | Some b => issubclass_fuel fuel' b d
           | None => false
           end
       end.

(** The hierarchy above has depth 3. *)
Definition issubclass (c d : cls) : bool := issubclass_fuel 3 c d.

(** A raised exception: its class and the text of [str(e)]. *)
Record t := Raise { class_of : cls; message : string }.

(** [except (c1, c2, ...)] catches [e]. *)
Definition caught_by (handled : list cls) (e : t) : bool :=
  existsb (issubclass (class_of e)) handled.

End Exn.

Abbreviation exn := Exn.t.

(** Computations that may raise. *)
Definition res (A : Type) : Type := exn + A.

Definition res_bind {A B : Type} (m : res A) (k : A -> res B) : res B :=
  match m with
  | inl e => inl e
  | inr a => k a
  end.

Declare Scope res_scope.
Delimit Scope res_scope with res.
Notation "x <- m ;; k" := (res_bind m (fun x => k))
  (at level 100, m at next level, right associativity) : res_scope.

Definition raise {A : Type} (c : Exn.cls) (msg : string) : res A :=
  inl (Exn.Raise c msg).

(* ===================================================================== *)
(** ** JSON values as Python objects *)
(* ===================================================================== *)

Module Json.

(** What [json.load] returns: [None], [bool], [int], [float], [str],
    [list], and [dict] with string keys in insertion order. *)
Inductive value :=
| VNull
| VBool (b : bool)
| VInt (z : Z)
| VFloat (f : spec_float)
| VStr (s : string)
| VList (items : list value)
| VDict (fields : list (string * value)).

Abbreviation dict := (list (string * value)).

(** *** dict operations *)

(** [d[k]], [None] standing for [KeyError]. *)
Fixpoint dict_get (k : string) (d : dict) : option value :=
  match d with
  | [] => None
  | (k', v) :: d' => if decide (k' = k) then Some v else dict_get k d'
  end.

(** [d[k] = v]: an existing key keeps its place, a new key goes last. *)
Fixpoint dict_set (k : string) (v : value) (d : dict) : dict :=
  match d with
  | [] => [(k, v)]
  | (k', v') :: d' =>
      if decide (k' = k) then (k', v) :: d' else (k', v') :: dict_set k v d'
  end.

(** [d.update(other)]: [d[k] = v] for each item of [other], in order. *)
Definition dict_update (d other : dict) : dict :=
  fold_left (fun acc kv => dict_set kv.1 kv.2 acc) other d.

(** A Python dict holds each key once. *)
Definition wf_dict (d : dict) : Prop := NoDup d.*1.

(** *** Dictionary keys *)

(** Hashable values up to Python's key equality: [True == 1 == 1.0],
    [0 == -0.0 == False]; a float is a key of its own only when it is not
    an integer. [KFrac neg m e] is (-1)^neg * m * 2^e with [m] odd and
    [e < 0]. *)
Inductive key :=
| KNone
| KInt (z : Z)
| KStr (s : string)
| KFrac (neg : bool) (m : positive) (e : Z)
| KInf (neg : bool)
| KNan.

#[global] Instance key_eq_dec : EqDecision key.
Proof. solve_decision. Defined.

Definition key_encode (k : key)
  : unit + Z + string + (bool * positive * Z) + bool + unit :=
  match k with
  | KNone => inl (inl (inl (inl (inl tt))))
  | KInt z => inl (inl (inl (inl (inr z))))
  | KStr s => inl (inl (inl (inr s)))
  | KFrac n m e => inl (inl (inr (n, m, e)))
  | KInf n => inl (inr n)
  | KNan => inr tt
  end.

Definition key_decode
  (x : unit + Z + string + (bool * positive * Z) + bool + unit) : key :=
  match x with
  | inl (inl (inl (inl (inl _)))) => KNone
  | inl (inl (inl (inl (inr z)))) => KInt z
  | inl (inl (inl (inr s))) => KStr s
  | inl (inl (inr (n, m, e))) => KFrac n m e
  | inl (inr n) => KInf n
  | inr _ => KNan
  end.

#[global] Instance key_countable : Countable key.
Proof.
  apply (inj_countable' key_encode key_decode).
  intros []; reflexivity.
Defined.

(** [m = m' * 2^t] with [m'] odd. *)
Fixpoint strip_zeros (m : positive) : positive * Z :=
  match m with
  | xO p => let '(q, t) := strip_zeros p in (q, Z.succ t)
  | _ => (m, 0%Z)
  end.

Definition signed (neg : bool) (z : Z) : Z := if neg then Z.opp z else z.

Definition float_key (f : spec_float) : key :=
  match f with
  | S754_zero _ => KInt 0
  | S754_infinity neg => KInf neg
  | S754_nan => KNan
  | S754_finite neg m e =>
      let '(m', t) := strip_zeros m in
      let e' := (e + t)%Z in
      if (0 <=? e')%Z then KInt (signed neg (Z.pos m' * 2 ^ e'))
      else KFrac neg m' e'
  end.

(** [hash(v)], as a dictionary does it before a lookup or a store. *)
Definition py_hash (v : value) : res key :=
  match v with
  | VNull => inr KNone
  | VBool b => inr (KInt (if b then 1 else 0))
  | VInt z => inr (KInt z)
  | VFloat f => inr (float_key f)
  | VStr s => inr (KStr s)
  | VList _ => raise Exn.TypeError "unhashable type: 'list'"
  | VDict _ => raise Exn.TypeError "unhashable type: 'dict'"
  end.

(** *** Subscript, iteration, append *)

(** [v[k]] for a string [k]. *)
Definition py_getitem (v : value) (k : string) : res value :=
  match v with
  | VDict d =>
      match dict_get k d with
      | Some x => inr x
      | None => raise Exn.KeyError ("'" ++ k ++ "'")
      end
  | VStr _ => raise Exn.TypeError "string indices must be integers"
  | VList _ => raise Exn.TypeError "list indices must be integers or slices, not str"
  | _ => raise Exn.TypeError "object is not subscriptable"
  end.

(** The items [for x in v] visits. *)
Definition py_iter (v : value) : res (list value) :=
  match v with
  | VList l => inr l
  | VDict d => inr (map (fun kv => VStr kv.1) d)
  | VStr s => inr (map (fun c => VStr (String c EmptyString)) (list_ascii_of_string s))
  | _ => raise Exn.TypeError "object is not iterable"
  end.

(** [v.append(x)]. *)
Definition py_append (v x : value) : res value :=
  match v with
  | VList l => inr (VList (l ++ [x]))
  | _ => raise Exn.AttributeError "object has no attribute 'append'"
  end.

End Json.

Import Json.

(* ===================================================================== *)
(** ** The script *)
(* ===================================================================== *)

Module Merge.

Local Open Scope res_scope.

(** *** Files *)

Definition EXERCISES_FILE : string := "exercises.json".
Definition NEW_EXERCISES_FILE : string := "new_exercises.json".

(** [EXERCISES_FILE + '.bak'] *)
Definition BACKUP_FILE : string := EXERCISES_FILE ++ ".bak".

(** *** The in-memory merge

    [existing_data] is the object the primary store parsed to. The script
    keeps, in [exercise_map], references to the records inside it: a
    reference is modelled as the record's position in [existing_data], which
    never changes, since the script only appends to that list. Updating a
    record through [exercise_map] therefore updates [existing_data]. *)

Record state := State {
  existing_data : value;
  exercise_map : gmap key nat;
  added_count : nat;
  updated_count : nat
}.

(** The dictionary key [ex['name']] is stored or looked up under. *)
Definition record_key (ex : value) : res key :=
  name <- py_getitem ex "name" ;; py_hash name.

(** [{ex['name']: ex for ex in existing_data}], the comprehension's items
    taken one at a time; [pos] is the position of the next item. A later
    record of the same name replaces the earlier entry. *)
Fixpoint index_items (items : list value) (pos : nat) (m : gmap key nat)
  : res (gmap key nat) :=
  match items with
  | [] => inr m
  | ex :: rest =>
      k <- record_key ex ;;
      index_items rest (S pos) (<[k := pos]> m)
  end.

Definition build_index (data : value) : res (gmap key nat) :=
  items <- py_iter data ;; index_items items 0 ∅.

(** [exercise_map[name].update(new_ex)], acting on the record behind the
    reference. The error branches stand for a target or an argument that
    is not a dict; the loop never reaches them
    ([MergeFacts.update_record_ok]). *)
Definition update_record (data : value) (ref : nat) (new_ex : value) : res value :=
  match data, new_ex with
  | VList l, VDict n =>
      match l !! ref with
      | Some (VDict d) => inr (VList (<[ref := VDict (dict_update d n)]> l))
      | _ => raise Exn.AttributeError "object has no attribute 'update'"
      end
  | _, _ => raise Exn.TypeError "object is not iterable"
  end.

(** The position [append] puts a new item at. *)
Definition next_ref (data : value) : nat :=
  match data with
  | VList l => length l
  | _ => 0
  end.

(** One turn of [for new_ex in new_data]. *)
Definition step (st : state) (new_ex : value) : res state :=
  name <- py_getitem new_ex "name" ;;
  k <- py_hash name ;;
  match exercise_map st !! k with
  | Some ref =>
      data <- update_record (existing_data st) ref new_ex ;;
      inr {| existing_data := data;
             exercise_map := exercise_map st;
             added_count := added_count st;
             updated_count := S (updated_count st) |}
  | None =>
      data <- py_append (existing_data st) new_ex ;;
      inr {| existing_data := data;
             exercise_map := <[k := next_ref (existing_data st)]> (exercise_map st);
             added_count := S (added_count st);
             updated_count := updated_count st |}
  end.

Fixpoint reconcile (st : state) (new_data : list value) : res state :=
  match new_data with
  | [] => inr st
  | new_ex :: rest => st' <- step st new_ex ;; reconcile st' rest
  end.

(** *** The file store and the statements that touch it *)

Abbreviation store := (gmap string string).

(** A statement: it may raise, and either way leaves a store behind. *)
Definition io (A : Type) : Type := store -> res A * store.

Definition io_ret {A : Type} (a : A) : io A := fun fs => (inr a, fs).

Definition io_bind {A B : Type} (m : io A) (k : A -> io B) : io B :=
  fun fs =>
    match m fs with
    | (inr a, fs') => k a fs'
    | (inl e, fs') => (inl e, fs')
    end.

Definition io_lift {A : Type} (r : res A) : io A := fun fs => (r, fs).

(** [try: m  except handled: h] *)
Definition io_try {A : Type} (m : io A) (handled : list Exn.cls) (h : io A) : io A :=
  fun fs =>
    match m fs with
    | (inr a, fs') => (inr a, fs')
    | (inl e, fs') => if Exn.caught_by handled e then h fs' else (inl e, fs')
    end.

Declare Scope io_scope.
Delimit Scope io_scope with io.
Notation "x <- m ;; k" := (io_bind m (fun x => k))
  (at level 100, m at next level, right associativity) : io_scope.

Definition no_such_file (path : string) : exn :=
  Exn.Raise Exn.FileNotFoundError
    ("[Errno 2] No such file or directory: '" ++ path ++ "'").

(** [open(path, 'r')] and reading the whole file. *)
Definition read_text (path : string) : io string :=
  fun fs =>
    match fs !! path with
    | Some txt => (inr txt, fs)
    | None => (inl (no_such_file path), fs)
    end.

(** [open(path, 'w')] and writing [txt]. *)
Definition write_text (path txt : string) : io unit :=
  fun fs => (inr tt, <[path := txt]> fs).

(** [shutil.copy2(src, dst)] *)
Definition copy2 (src dst : string) : io unit :=
  fun fs =>
    match fs !! src with
    | Some txt => (inr tt, <[dst := txt]> fs)
    | None => (inl (no_such_file src), fs)
    end.

(** What the script prints. *)
Inductive printed :=
| MergeSuccessful (added updated : nat)
| ErrorMerging (e : exn).

(** How a call of [merge_exercises] ends. *)
Inductive outcome :=
| Returned (line : printed) (fs : store)
| Propagated (e : exn) (fs : store).

Section Script.

(** [json.load] on a file holding this text, and the text
    [json.dump(_, indent=2)] writes. *)
Variable json_loads : string -> res value.
Variable json_dumps : value -> string.

Definition load_json (path : string) : io value :=
  (txt <- read_text path ;; io_lift (json_loads txt))%io.

(** Lines 10-50, the body of the outer [try]. *)
Definition merge_body : io printed :=
  (data <- io_try (load_json EXERCISES_FILE)
                  [Exn.FileNotFoundError; Exn.JSONDecodeError]
                  (io_ret (VList [])) ;;
   index <- io_lift (build_index data) ;;
   new_data <- load_json NEW_EXERCISES_FILE ;;
   items <- io_lift (py_iter new_data) ;;
   st <- io_lift (reconcile {| existing_data := data;
                               exercise_map := index;
                               added_count := 0;
                               updated_count := 0 |} items) ;;
   _ <- copy2 EXERCISES_FILE BACKUP_FILE ;;
   _ <- write_text EXERCISES_FILE (json_dumps (existing_data st)) ;;
   io_ret (MergeSuccessful (added_count st) (updated_count st)))%io.

(** [merge_exercises()]: the body under [except Exception as e]. *)
Definition merge_exercises (fs : store) : outcome :=
  match merge_body fs with
  | (inr line, fs') => Returned line fs'
  | (inl e, fs') =>
      if Exn.caught_by [Exn.PyException] e
      then Returned (ErrorMerging e) fs'
      else Propagated e fs'
  end.

End Script.

End Merge.

Import Merge.

(* ===================================================================== *)
(** ** Vocabulary of the statements *)
(* ===================================================================== *)

Module Props.

Local Open Scope res_scope.

(** The name index is the one the comprehension builds from the data as it
    stands: every name leads to the last record that carries it. *)
Definition index_ok (st : state) : Prop :=
  build_index (existing_data st) = inr (exercise_map st).

(** A record as [json.load] makes it: a dict, each field held once. *)
Definition wf_record (r : value) : Prop :=
  match r with
  | VDict d => wf_dict d
  | _ => True
  end.

Definition wf_records (v : value) : Prop :=
  match v with
  | VList l => Forall wf_record l
  | _ => True
  end.

(** What [ex['name']] raises on a dict without that field. *)
Definition key_error : exn := Exn.Raise Exn.KeyError "'name'".

(** The record is a dict without a [name] field. *)
Definition lacks_name (r : value) : Prop :=
  exists d, r = VDict d /\ dict_get "name" d = None.

(** Some item of [items] is a record named [k] that has the field [f]. *)
Definition writes (k : key) (f : string) (items : list value) : Prop :=
  exists n, VDict n ∈ items /\ record_key (VDict n) = inr k /\ f ∈ n.*1.

(** The record the index keeps under [k] has the field [f], with value [v]. *)
Definition holds (st : state) (k : key) (f : string) (v : value) : Prop :=
  exists l i d,
    existing_data st = VList l /\ exercise_map st !! k = Some i /\
    l !! i = Some (VDict d) /\ dict_get f d = Some v.

(** [st] is what a loop over [items] leaves: each field of each item is in
    the record of the item's name, and with the item's value unless a later
    item of that name has the field too. *)
Definition settled (st : state) (items : list value) : Prop :=
  forall pre n post k f v,
    items = pre ++ VDict n :: post ->
    record_key (VDict n) = inr k ->
    dict_get f n = Some v ->
    (exists v', holds st k f v') /\ (holds st k f v \/ writes k f post).

(** [d] has the fields of [dF], in the same order, and the same values but
    for the fields that [rest] is still to write under the name [k]. *)
Definition lags (rest : list value) (k : key) (d dF : dict) : Prop :=
  d.*1 = dF.*1 /\ forall f, dict_get f d = dict_get f dF \/ writes k f rest.

(** [l] is [lF] but for indexed records that lag behind. *)
Definition behind (rest : list value) (m : gmap key nat) (l lF : list value) : Prop :=
  length l = length lF /\
  forall i r rF, l !! i = Some r -> lF !! i = Some rF ->
    r = rF \/
    exists k d dF, m !! k = Some i /\ r = VDict d /\ rF = VDict dF /\ lags rest k d dF.

(** The loop's state when it starts. *)
Definition start (data : value) (index : gmap key nat) : state :=
  {| existing_data := data; exercise_map := index;
     added_count := 0; updated_count := 0 |}.

Section InMemory.

Variable json_loads : string -> res value.

(** The three definitions below restate the body of the script as a
    function of the store; [StoreFacts.merge_body_eq] proves that
    [merge_body] computes them. *)

(** What lines 11-15 leave in [existing_data]. *)
Definition loaded_primary (fs : store) : res value :=
  match fs !! EXERCISES_FILE with
  | None => inr (VList [])
  | Some txt =>
      match json_loads txt with
      | inr v => inr v
      | inl e =>
          if Exn.caught_by [Exn.FileNotFoundError; Exn.JSONDecodeError] e
          then inr (VList [])
          else inl e
      end
  end.

(** What lines 21-22 leave in [new_data]. *)
Definition loaded_incoming (fs : store) : res value :=
  match fs !! NEW_EXERCISES_FILE with
  | None => inl (no_such_file NEW_EXERCISES_FILE)
  | Some txt => json_loads txt
  end.

(** Lines 10-41: everything the body does before it touches the disk. *)
Definition in_memory (fs : store) : res state :=
  data <- loaded_primary fs ;;
  index <- build_index data ;;
  new_data <- loaded_incoming fs ;;
  items <- py_iter new_data ;;
  reconcile (start data index) items.

End InMemory.

End Props.

Import Props.

(* ===================================================================== *)
(** ** A small store codec to run the script on *)
(* ===================================================================== *)

Module Fixture.

Definition dquote : string := String "034"%char EmptyString.

Definition show_float (f : spec_float) : string :=
  match f with
  | S754_zero neg => if neg then "-0.0" else "0.0"
  | S754_infinity neg => if neg then "-Infinity" else "Infinity"
  | S754_nan => "NaN"
  | S754_finite neg m e =>
      ((if neg then "-" else "") ++ pretty (Z.pos m) ++ "p" ++ pretty e)%string
  end.

Definition commas (parts : list string) : string :=
  match parts with
  | [] => ""
  | p :: ps => fold_left (fun acc q => (acc ++ ", " ++ q)%string) ps p
  end.

(** A compact rendering of a value. *)
Fixpoint show (v : value) : string :=
  match v with
  | VNull => "null"
  | VBool b => if b then "true" else "false"
  | VInt z => pretty z
  | VFloat f => show_float f
  | VStr s => (dquote ++ s ++ dquote)%string
  | VList l => ("[" ++ commas (map show l) ++ "]")%string
  | VDict d =>
      ("{" ++ commas (map (fun kv => dquote ++ kv.1 ++ dquote ++ ": " ++ show kv.2) d)
           ++ "}")%string
  end.

(** A loader that knows the documents of [docs] by their rendering and
    rejects every other text. *)
Definition loads (docs : list value) (txt : string) : res value :=
  match find (fun v => bool_decide (show v = txt)) docs with
  | Some v => inr v
  | None => raise Exn.JSONDecodeError "Expecting value: line 1 column 1 (char 0)"
  end.

Definition dumps : value -> string := show.

(** Sample records. *)
Definition squat : value :=
  VDict [("name", VStr "Squat"); ("sets", VInt 3)].
Definition squat_new : value :=
  VDict [("name", VStr "Squat"); ("sets", VInt 5); ("reps", VInt 8)].
Definition squat_old : value :=
  VDict [("name", VStr "Squat"); ("sets", VInt 1); ("note", VStr "warm up")].
Definition plank : value :=
  VDict [("name", VStr "Plank"); ("seconds", VInt 60)].
Definition lunge : value :=
  VDict [("name", VStr "Lunge"); ("sets", VInt 2)].
Definition nameless : value :=
  VDict [("sets", VInt 4)].

(** [squat_old] after [squat_new] was merged into it. *)
Definition squat_merged : value :=
  VDict [("name", VStr "Squat"); ("sets", VInt 5); ("note", VStr "warm up");
         ("reps", VInt 8)].

(** Sample documents and the loader that knows them. *)
Definition primary_doc : value := VList [squat_old; plank].
Definition incoming_doc : value := VList [squat_new; lunge].
Definition merged_doc : value := VList [squat_merged; plank; lunge].
Definition broken_doc : value := VList [squat; nameless; plank].
Definition twice_doc : value := VList [squat; plank; squat_old].

Definition docs : list value :=
  [primary_doc; incoming_doc; merged_doc; broken_doc; twice_doc].

Definition json_loads : string -> res value := loads docs.

(** Sample stores. *)
Definition fresh_store : gmap string string :=
  {[ NEW_EXERCISES_FILE := dumps incoming_doc ]}.
Definition full_store : gmap string string :=
  {[ EXERCISES_FILE := dumps primary_doc;
     NEW_EXERCISES_FILE := dumps incoming_doc ]}.
Definition merged_store : gmap string string :=
  <[EXERCISES_FILE := dumps merged_doc]>
    (<[BACKUP_FILE := dumps primary_doc]> full_store).
Definition no_incoming_store : gmap string string :=
  {[ EXERCISES_FILE := dumps primary_doc ]}.
Definition broken_primary_store : gmap string string :=
  {[ EXERCISES_FILE := dumps broken_doc;
     NEW_EXERCISES_FILE := dumps incoming_doc ]}.
Definition broken_incoming_store : gmap string string :=
  {[ EXERCISES_FILE := dumps primary_doc;
     NEW_EXERCISES_FILE := dumps broken_doc ]}.

(** Sample loop states. *)
Definition primary_index : gmap key nat :=
  {[ KStr "Squat" := 0; KStr "Plank" := 1 ]}.
Definition primary_state : state := start primary_doc primary_index.

Definition twice_index : gmap key nat :=
  {[ KStr "Squat" := 2; KStr "Plank" := 1 ]}.
Definition twice_state : state := start twice_doc twice_index.

End Fixture.

(* ===================================================================== *)
(** ** More sample documents and stores *)
(* ===================================================================== *)

Module Samples.

(** An incoming store with no record, one that holds a single object in
    place of a list, and one whose second record has a list for a name. *)
Definition empty_doc : value := VList [].
Definition object_doc : value := Fixture.squat.
Definition listed_name : value :=
  VDict [("name", VList [VStr "Squat"]); ("sets", VInt 3)].
Definition odd_doc : value := VList [Fixture.squat; listed_name].

(** The loop's state after [Fixture.incoming_doc] was merged into
    [Fixture.primary_doc]. *)
Definition merged_state : state :=
  {| existing_data := Fixture.merged_doc;
     exercise_map := <[KStr "Lunge" := 2]> Fixture.primary_index;
     added_count := 1; updated_count := 1 |}.

(** Two incoming records of one new name. *)
Definition lunge_more : value :=
  VDict [("reps", VInt 12); ("name", VStr "Lunge")].

Definition pushup : value :=
  VDict [("name", VStr "Push-up"); ("sets", VInt 4)].

Definition docs : list value :=
  Fixture.docs ++ [empty_doc; object_doc; odd_doc].

(** A loader that knows [docs], fails to decode the text [binary] as
    [json.load] fails on bytes that are not UTF-8 ([UnicodeDecodeError], a
    [ValueError]), and rejects every other text. *)
Definition json_loads (txt : string) : res value :=
  if bool_decide (txt = "binary")
  then raise Exn.ValueError "'utf-8' codec can't decode byte 0xff"
  else Fixture.loads docs txt.

Definition garbled_store : gmap string string :=
  {[ EXERCISES_FILE := "{oops";
     NEW_EXERCISES_FILE := Fixture.dumps Fixture.incoming_doc ]}.
Definition binary_store : gmap string string :=
  {[ EXERCISES_FILE := "binary";
     NEW_EXERCISES_FILE := Fixture.dumps Fixture.incoming_doc ]}.
Definition empty_incoming_store : gmap string string :=
  {[ EXERCISES_FILE := Fixture.dumps Fixture.primary_doc;
     NEW_EXERCISES_FILE := Fixture.dumps empty_doc ]}.
Definition object_incoming_store : gmap string string :=
  {[ EXERCISES_FILE := Fixture.dumps Fixture.primary_doc;
     NEW_EXERCISES_FILE := Fixture.dumps object_doc ]}.
Definition odd_incoming_store : gmap string string :=
  {[ EXERCISES_FILE := Fixture.dumps Fixture.primary_doc;
     NEW_EXERCISES_FILE := Fixture.dumps odd_doc ]}.
Definition odd_primary_store : gmap string string :=
  {[ EXERCISES_FILE := Fixture.dumps odd_doc;
     NEW_EXERCISES_FILE := Fixture.dumps Fixture.incoming_doc ]}.

End Samples.

(* ===================================================================== *)
(** ** Facts about the Python operations *)
(* ===================================================================== *)

Module JsonFacts.

Lemma dict_get_set (f k : string) (v : value) (d : dict) :
  dict_get f (dict_set k v d) = if decide (k = f) then Some v else dict_get f d.
Proof.
  induction d as [|[k' v'] d IH]; csimpl.
  - repeat case_decide; congruence.
  - destruct (decide (k' = k)) as [->|Hne]; csimpl.
    + repeat case_decide; congruence.
    + rewrite IH. repeat case_decide; congruence.
Qed.

Lemma dict_get_None (f : string) (d : dict) :
  dict_get f d = None <-> f ∉ d.*1.
Proof.
  induction d as [|[k v] d IH]; csimpl.
  - split; [intros _; apply not_elem_of_nil | done].
  - rewrite not_elem_of_cons. case_decide; subst.
    + split; [done | intros [? _]; done].
    + rewrite IH. split; [by intros ?; split | by intros [_ ?]].
Qed.

Lemma dict_get_Some_elem (f : string) (v : value) (d : dict) :
  dict_get f d = Some v -> f ∈ d.*1.
Proof.
  intros H. destruct (decide (f ∈ d.*1)) as [|Hn]; [done|].
  apply dict_get_None in Hn. congruence.
Qed.

Lemma dict_set_keys_present (k : string) (v : value) (d : dict) :
  k ∈ d.*1 -> (dict_set k v d).*1 = d.*1.
Proof.
  induction d as [|[k' v'] d IH]; csimpl.
  - intros H. by apply elem_of_nil in H.
  - intros H. case_decide; csimpl; [done|].
    f_equal. apply IH. apply elem_of_cons in H as [->|H]; done.
Qed.

Lemma dict_set_keys_absent (k : string) (v : value) (d : dict) :
  k ∉ d.*1 -> (dict_set k v d).*1 = d.*1 ++ [k].
Proof.
  induction d as [|[k' v'] d IH]; csimpl; [done|].
  rewrite not_elem_of_cons. intros [Hne Hn].
  case_decide; [congruence|]. csimpl. by rewrite IH.
Qed.

Lemma dict_set_wf (k : string) (v : value) (d : dict) :
  wf_dict d -> wf_dict (dict_set k v d).
Proof.
  unfold wf_dict. intros Hd.
  destruct (decide (k ∈ d.*1)) as [Hin|Hn].
  - by rewrite dict_set_keys_present.
  - rewrite dict_set_keys_absent by done.
    apply NoDup_app. split; [done|]. split.
    + intros x Hx Hk. apply list_elem_of_singleton in Hk. by subst.
    + apply NoDup_singleton.
Qed.

Lemma dict_update_cons (d : dict) (kv : string * value) (n : dict) :
  dict_update d (kv :: n) = dict_update (dict_set kv.1 kv.2 d) n.
Proof. reflexivity. Qed.

Lemma dict_update_wf (d n : dict) : wf_dict d -> wf_dict (dict_update d n).
Proof.
  revert d. induction n as [|[k v] n IH]; intros d Hd; [done|].
  rewrite dict_update_cons. apply IH. by apply dict_set_wf.
Qed.

(** After [d.update(n)] a field of [n] holds [n]'s value, any other field
    holds what it held. *)
Lemma dict_get_update (f : string) (d n : dict) :
  wf_dict n ->
  dict_get f (dict_update d n) =
    match dict_get f n with
    | Some v => Some v
    | None => dict_get f d
    end.
Proof.
  unfold wf_dict. revert d.
  induction n as [|[k v] n IH]; intros d Hn; [done|].
  rewrite dict_update_cons. csimpl in *.
  apply NoDup_cons in Hn as [Hk Hn].
  rewrite IH by done. rewrite dict_get_set.
  destruct (decide (k = f)) as [->|Hne].
  - apply dict_get_None in Hk. by rewrite Hk.
  - done.
Qed.

(** An update whose fields all exist already leaves the field order alone. *)
Lemma dict_update_keys (d n : dict) :
  (forall f, f ∈ n.*1 -> f ∈ d.*1) -> (dict_update d n).*1 = d.*1.
Proof.
  revert d. induction n as [|[k v] n IH]; intros d Hsub; [done|].
  rewrite dict_update_cons. csimpl in *.
  assert (Hk : k ∈ d.*1) by (apply Hsub; left).
  rewrite IH.
  - by apply dict_set_keys_present.
  - intros f Hf. rewrite dict_set_keys_present by done.
    apply Hsub. by right.
Qed.

(** Two dicts with the same field order and the same values are equal. *)
Lemma dict_ext (d1 d2 : dict) :
  wf_dict d1 -> d1.*1 = d2.*1 ->
  (forall f, dict_get f d1 = dict_get f d2) -> d1 = d2.
Proof.
  unfold wf_dict. revert d2.
  induction d1 as [|[k v] d1 IH]; intros [|[k2 v2] d2] Hwf Hkeys Hget;
    csimpl in *; try done.
  injection Hkeys as -> Hkeys.
  apply NoDup_cons in Hwf as [Hk Hwf].
  pose proof (Hget k2) as Hk2. rewrite !decide_True in Hk2 by done.
  injection Hk2 as ->. f_equal.
  apply IH; [done..|].
  intros f. specialize (Hget f).
  destruct (decide (k2 = f)) as [->|Hne]; [|done].
  assert (Hk' : f ∉ d2.*1) by (by rewrite <- Hkeys).
  apply dict_get_None in Hk, Hk'. congruence.
Qed.

(** Every class of [Exn.cls] is caught by [except Exception]. *)
Lemma caught_by_Exception (e : exn) : Exn.caught_by [Exn.PyException] e = true.
Proof. destruct e as [[] msg]; reflexivity. Qed.

End JsonFacts.

(* ===================================================================== *)
(** ** The name index and the loop *)
(* ===================================================================== *)

Module MergeFacts.

Import JsonFacts.
Local Open Scope res_scope.

Lemma res_bind_inr {A B : Type} (m : res A) (k : A -> res B) (b : B) :
  res_bind m k = inr b -> exists a, m = inr a /\ k a = inr b.
Proof. destruct m as [e|a]; simpl; [done | eauto]. Qed.

Ltac res_inv :=
  repeat match goal with
  | H : res_bind _ _ = inr _ |- _ =>
      let a := fresh "a" in
      let Ha := fresh "Ha" in
      apply res_bind_inr in H as (a & Ha & H)
  end.

(** Only a dict with a hashable [name] has a key. *)
Lemma record_key_inr (r : value) (k : key) :
  record_key r = inr k ->
  exists d name, r = VDict d /\ dict_get "name" d = Some name /\ py_hash name = inr k.
Proof.
  unfold record_key. intros H. res_inv.
  destruct r; simpl in Ha; try discriminate.
  destruct (dict_get "name" fields) as [x|] eqn:Hget; [|discriminate].
  injection Ha as ->. eauto.
Qed.

Lemma record_key_dict (d : dict) (name : value) :
  dict_get "name" d = Some name -> record_key (VDict d) = py_hash name.
Proof. unfold record_key. simpl. by intros ->. Qed.

Lemma record_key_lacks (r : value) :
  lacks_name r -> record_key r = raise Exn.KeyError "'name'".
Proof. intros (d & -> & Hd). unfold record_key. simpl. by rewrite Hd. Qed.

(** An update by a record of the same name keeps the name. *)
Lemma record_key_update (d n : dict) (k : key) :
  wf_dict n -> record_key (VDict n) = inr k ->
  record_key (VDict (dict_update d n)) = inr k.
Proof.
  intros Hwf Hk. apply record_key_inr in Hk as (n' & name & [= <-] & Hname & Hk).
  rewrite (record_key_dict _ name); [done|].
  by rewrite dict_get_update, Hname.
Qed.

(** *** [index_items] *)

Lemma index_items_app (l1 l2 : list value) (pos : nat) (m : gmap key nat) :
  index_items (l1 ++ l2) pos m =
    (m' <- index_items l1 pos m ;; index_items l2 (pos + length l1) m').
Proof.
  revert pos m. induction l1 as [|r l1 IH]; intros pos m; simpl.
  - by rewrite Nat.add_0_r.
  - destruct (record_key r) as [e|k]; simpl; [done|].
    rewrite IH. by rewrite Nat.add_succ_comm.
Qed.

(** The index depends on the records' names only. *)
Lemma index_items_keys (l l' : list value) (pos : nat) (m : gmap key nat) :
  Forall2 (fun r r' => record_key r = record_key r') l l' ->
  index_items l pos m = index_items l' pos m.
Proof.
  intros H. revert pos m.
  induction H as [|r r' l l' Hr _ IH]; intros pos m; simpl; [done|].
  rewrite Hr. destruct (record_key r') as [e|k]; simpl; [done|]. apply IH.
Qed.

Lemma index_items_None (l : list value) (pos : nat) (m0 m : gmap key nat) (k : key) :
  index_items l pos m0 = inr m -> m !! k = None ->
  m0 !! k = None /\ Forall (fun r => record_key r ≠ inr k) l.
Proof.
  revert pos m0. induction l as [|r l IH]; intros pos m0 H Hk; simpl in H.
  - injection H as ->. by split.
  - res_inv. destruct (IH _ _ H Hk) as [Hm0 Hl].
    destruct (decide (a = k)) as [->|Hne].
    + by rewrite lookup_insert_eq in Hm0.
    + rewrite lookup_insert_ne in Hm0 by done. split; [done|].
      constructor; [congruence | done].
Qed.

Lemma index_items_Some (l : list value) (pos : nat) (m0 m : gmap key nat)
    (k : key) (i : nat) :
  index_items l pos m0 = inr m -> m !! k = Some i ->
  (m0 !! k = Some i /\ Forall (fun r => record_key r ≠ inr k) l) \/
  (exists j r, i = pos + j /\ l !! j = Some r /\ record_key r = inr k /\
               Forall (fun r' => record_key r' ≠ inr k) (drop (S j) l)).
Proof.
  revert pos m0. induction l as [|r l IH]; intros pos m0 H Hk; simpl in H.
  - injection H as ->. left. by split.
  - res_inv. destruct (IH _ _ H Hk) as [[Hm0 Hl]|(j & r' & -> & Hj & Hr' & Hl)].
    + destruct (decide (a = k)) as [->|Hne].
      * rewrite lookup_insert_eq in Hm0. injection Hm0 as <-.
        right. exists 0, r. rewrite Nat.add_0_r. by repeat split.
      * rewrite lookup_insert_ne in Hm0 by done. left. split; [done|].
        constructor; [congruence | done].
    + right. exists (S j), r'. rewrite Nat.add_succ_comm. by repeat split.
Qed.

Lemma Forall_drop_lookup {A : Type} (P : A -> Prop) (l : list A) (n j : nat) (x : A) :
  Forall P (drop n l) -> n <= j -> l !! j = Some x -> P x.
Proof.
  intros H Hle Hj. rewrite Forall_lookup in H. apply (H (j - n)).
  rewrite lookup_drop. by replace (n + (j - n)) with j by lia.
Qed.

(** A name leads to the last record that carries it. *)
Lemma index_items_last (l : list value) (pos : nat) (m0 m : gmap key nat)
    (k : key) (j : nat) (r : value) :
  index_items l pos m0 = inr m ->
  l !! j = Some r -> record_key r = inr k ->
  Forall (fun r' => record_key r' ≠ inr k) (drop (S j) l) ->
  m !! k = Some (pos + j).
Proof.
  intros H Hj Hr Hlast.
  destruct (m !! k) as [i|] eqn:Hk.
  - destruct (index_items_Some _ _ _ _ _ _ H Hk)
      as [[_ Hl]|(j' & r' & -> & Hj' & Hr' & Hl)].
    + rewrite Forall_lookup in Hl. by destruct (Hl _ _ Hj).
    + destruct (Nat.lt_trichotomy j j') as [Hlt|[->|Hlt]]; [|done|].
      * by destruct (Forall_drop_lookup _ _ _ _ _ Hlast Hlt Hj').
      * by destruct (Forall_drop_lookup _ _ _ _ _ Hl Hlt Hj).
  - destruct (index_items_None _ _ _ _ _ H Hk) as [_ Hl].
    rewrite Forall_lookup in Hl. by destruct (Hl _ _ Hj).
Qed.

(** *** [index_ok] *)

Lemma index_ok_list (st : state) (l : list value) :
  existing_data st = VList l ->
  index_ok st <-> index_items l 0 ∅ = inr (exercise_map st).
Proof. unfold index_ok, build_index. by intros ->. Qed.

(** A reference in the index leads to a dict that carries the name. *)
Lemma index_ok_target (st : state) (l : list value) (k : key) (i : nat) :
  existing_data st = VList l -> index_ok st ->
  exercise_map st !! k = Some i ->
  exists d, l !! i = Some (VDict d) /\ record_key (VDict d) = inr k /\
            Forall (fun r' => record_key r' ≠ inr k) (drop (S i) l).
Proof.
  intros Hl Hok Hk. rewrite (index_ok_list _ _ Hl) in Hok.
  destruct (index_items_Some _ _ _ _ _ _ Hok Hk)
    as [[He _]|(j & r & -> & Hj & Hr & Hlast)].
  - by rewrite lookup_empty in He.
  - simpl. destruct (record_key_inr _ _ Hr) as (d & name & -> & _ & _). eauto.
Qed.

(** When the data is not a list the index holds nothing. *)
Lemma index_ok_not_list (st : state) (k : key) :
  index_ok st -> (forall l, existing_data st ≠ VList l) ->
  exercise_map st !! k = None.
Proof.
  unfold index_ok, build_index. intros H Hnl. res_inv.
  destruct a as [|r items].
  - simpl in H. injection H as <-. apply lookup_empty.
  - destruct (existing_data st) as [| | | |s|l|d]; simpl in Ha; try discriminate.
    + destruct (list_ascii_of_string s); simpl in Ha; [discriminate|].
      injection Ha as <- <-. simpl in H. discriminate.
    + by destruct (Hnl l).
    + destruct d; simpl in Ha; [discriminate|].
      injection Ha as <- <-. simpl in H. discriminate.
Qed.

(** A name is indexed only when the data is a list. *)
Lemma indexed_data_is_list (st : state) (k : key) (i : nat) :
  index_ok st -> exercise_map st !! k = Some i ->
  exists l, existing_data st = VList l.
Proof.
  intros Hok Hm.
  destruct (existing_data st) as [| | | | |l|] eqn:Hdata; eauto;
    rewrite (index_ok_not_list st k Hok) in Hm; try discriminate;
    intros l; rewrite Hdata; discriminate.
Qed.

(** The update of an indexed record never fails. *)
Lemma update_record_ok (st : state) (r : value) (k : key) (i : nat) :
  index_ok st -> record_key r = inr k -> exercise_map st !! k = Some i ->
  exists l d n,
    existing_data st = VList l /\ l !! i = Some (VDict d) /\ r = VDict n /\
    update_record (existing_data st) i r
    = inr (VList (<[i := VDict (dict_update d n)]> l)).
Proof.
  intros Hok Hk Hm.
  destruct (indexed_data_is_list _ _ _ Hok Hm) as [l Hl].
  destruct (index_ok_target _ _ _ _ Hl Hok Hm) as (d & Hi & _ & _).
  destruct (record_key_inr _ _ Hk) as (n & name & -> & _ & _).
  exists l, d, n. repeat split; [done..|].
  unfold update_record. by rewrite Hl, Hi.
Qed.

(** *** One turn of the loop *)

Lemma step_update (st : state) (l : list value) (n d : dict) (k : key) (i : nat) :
  existing_data st = VList l ->
  record_key (VDict n) = inr k ->
  exercise_map st !! k = Some i ->
  l !! i = Some (VDict d) ->
  step st (VDict n) =
    inr {| existing_data := VList (<[i := VDict (dict_update d n)]> l);
           exercise_map := exercise_map st;
           added_count := added_count st;
           updated_count := S (updated_count st) |}.
Proof.
  intros Hl Hk Hm Hi. unfold step.
  fold (record_key (VDict n)).
  apply record_key_inr in Hk as (n' & name & [= <-] & Hname & Hk).
  simpl. rewrite Hname. simpl. rewrite Hk. simpl. rewrite Hm.
  unfold update_record. by rewrite Hl, Hi.
Qed.

Lemma step_append (st : state) (l : list value) (r : value) (k : key) :
  existing_data st = VList l ->
  record_key r = inr k ->
  exercise_map st !! k = None ->
  step st r =
    inr {| existing_data := VList (l ++ [r]);
           exercise_map := <[k := length l]> (exercise_map st);
           added_count := S (added_count st);
           updated_count := updated_count st |}.
Proof.
  intros Hl Hk Hm. unfold step. unfold record_key in Hk.
  destruct (py_getitem r "name") as [e|name]; simpl in *; [done|].
  rewrite Hk. simpl. rewrite Hm, Hl. done.
Qed.

(** A turn that does not raise was an update or an addition. *)
Lemma step_cases (st st' : state) (r : value) :
  step st r = inr st' ->
  exists n k l,
    r = VDict n /\ record_key r = inr k /\ existing_data st = VList l /\
    ((exists i d,
        exercise_map st !! k = Some i /\ l !! i = Some (VDict d) /\
        st' = {| existing_data := VList (<[i := VDict (dict_update d n)]> l);
                 exercise_map := exercise_map st;
                 added_count := added_count st;
                 updated_count := S (updated_count st) |}) \/
     (exercise_map st !! k = None /\
      st' = {| existing_data := VList (l ++ [r]);
               exercise_map := <[k := length l]> (exercise_map st);
               added_count := S (added_count st);
               updated_count := updated_count st |})).
Proof.
  unfold step. intros H.
  apply res_bind_inr in H as (name & Hname & H).
  apply res_bind_inr in H as (k & Hk & H).
  assert (Hkey : record_key r = inr k) by (unfold record_key; by rewrite Hname).
  destruct (record_key_inr _ _ Hkey) as (n & name' & -> & _ & _).
  exists n, k.
  destruct (exercise_map st !! k) as [i|] eqn:Hm.
  - apply res_bind_inr in H as (data & Hdata & H). injection H as <-.
    unfold update_record in Hdata.
    destruct (existing_data st) as [| | | | |l|]; try discriminate.
    exists l. repeat split; [done|]. left.
    destruct (l !! i) as [[| | | | | |d]|] eqn:Hi; try discriminate.
    injection Hdata as <-. eauto.
  - apply res_bind_inr in H as (data & Hdata & H). injection H as <-.
    destruct (existing_data st) as [| | | | |l|] eqn:Hl; try discriminate.
    injection Hdata as <-. exists l. repeat split; [done|]. right. by split.
Qed.

Lemma Forall2_same_key (l : list value) :
  Forall2 (fun r r' => record_key r = record_key r') l l.
Proof. induction l; by constructor. Qed.

(** The loop keeps the index in step with the data. *)
Lemma step_index_ok (st st' : state) (r : value) :
  index_ok st -> wf_record r -> step st r = inr st' -> index_ok st'.
Proof.
  intros Hok Hwf H.
  destruct (step_cases _ _ _ H)
    as (n & k & l & -> & Hk & Hl & [(i & d & Hm & Hi & ->)|[Hm ->]]).
  - destruct (index_ok_target _ _ _ _ Hl Hok Hm) as (d' & Hi' & Hd & _).
    assert (d' = d) as -> by congruence.
    rewrite (index_ok_list _ _ Hl) in Hok.
    unfold index_ok, build_index. simpl. rewrite <- Hok.
    apply index_items_keys.
    rewrite <- (list_insert_id l i (VDict d)) at 2 by done.
    apply Forall2_insert; [apply Forall2_same_key|].
    rewrite Hd. by apply record_key_update.
  - rewrite (index_ok_list _ _ Hl) in Hok.
    unfold index_ok, build_index. simpl.
    rewrite index_items_app, Hok. simpl. by rewrite Hk.
Qed.

Lemma step_wf (st st' : state) (r : value) :
  wf_records (existing_data st) -> wf_record r -> step st r = inr st' ->
  wf_records (existing_data st').
Proof.
  intros Hdata Hwf H.
  destruct (step_cases _ _ _ H)
    as (n & k & l & -> & Hk & Hl & [(i & d & Hm & Hi & ->)|[Hm ->]]);
    rewrite Hl in Hdata; simpl in *.
  - apply Forall_insert; [done|]. simpl. apply dict_update_wf.
    rewrite Forall_lookup in Hdata. apply (Hdata _ _ Hi).
  - apply Forall_app. split; [done|]. by constructor.
Qed.

(** *** The whole loop *)

Lemma reconcile_app (st st' : state) (xs ys : list value) :
  reconcile st (xs ++ ys) = inr st' <->
  exists mid, reconcile st xs = inr mid /\ reconcile mid ys = inr st'.
Proof.
  revert st. induction xs as [|x xs IH]; intros st; simpl.
  - split; [eauto | by intros (mid & [= ->] & ?)].
  - destruct (step st x) as [e|st1]; simpl.
    + split; [done | by intros (? & ? & ?)].
    + apply IH.
Qed.

Lemma reconcile_index_ok (st st' : state) (news : list value) :
  index_ok st -> Forall wf_record news -> reconcile st news = inr st' ->
  index_ok st'.
Proof.
  intros Hok Hwf. revert st Hok.
  induction Hwf as [|r news Hr _ IH]; intros st Hok H; simpl in H.
  - by injection H as <-.
  - res_inv. eauto using step_index_ok.
Qed.

Lemma reconcile_wf (st st' : state) (news : list value) :
  wf_records (existing_data st) -> Forall wf_record news ->
  reconcile st news = inr st' -> wf_records (existing_data st').
Proof.
  intros Hdata Hwf. revert st Hdata.
  induction Hwf as [|r news Hr _ IH]; intros st Hdata H; simpl in H.
  - by injection H as <-.
  - res_inv. eauto using step_wf.
Qed.

(** The loop moves on only while the data is a list. *)
Lemma reconcile_not_list (st st' : state) (news : list value) :
  index_ok st -> (forall l, existing_data st ≠ VList l) ->
  reconcile st news = inr st' -> news = [] /\ st' = st.
Proof.
  intros Hok Hnl H. destruct news as [|r news]; simpl in H.
  - by injection H as <-.
  - res_inv. destruct (step_cases _ _ _ Ha) as (_ & _ & l & _ & _ & Hl & _).
    by destruct (Hnl l).
Qed.

(** Records whose names are new and differ from one another are appended,
    in order. *)
Lemma reconcile_fresh (recs : list value) (ks : list key) :
  Forall2 (fun r k => record_key r = inr k) recs ks -> NoDup ks ->
  forall (l : list value) (m : gmap key nat) (a u : nat),
    (forall k, k ∈ ks -> m !! k = None) ->
    exists m',
      reconcile {| existing_data := VList l; exercise_map := m;
                   added_count := a; updated_count := u |} recs
      = inr {| existing_data := VList (l ++ recs); exercise_map := m';
               added_count := a + length recs; updated_count := u |}.
Proof.
  induction 1 as [|r k recs ks Hr _ IH]; intros Hnd l m a u Hm; simpl.
  - exists m. by rewrite app_nil_r, Nat.add_0_r.
  - apply NoDup_cons in Hnd as [Hk Hnd].
    erewrite step_append; [|done|done|]; last first.
    { simpl. apply Hm. left. }
    simpl.
    destruct (IH Hnd (l ++ [r]) (<[k := length l]> m) (S a) u) as [m' IHm].
    { intros k' Hk'. rewrite lookup_insert_ne; [apply Hm; by right|].
      intros ->. done. }
    exists m'. rewrite IHm. by rewrite <- app_assoc, Nat.add_succ_comm.
Qed.

End MergeFacts.

(* ===================================================================== *)
(** ** Running the loop again over the same items *)
(* ===================================================================== *)

Module ReplayFacts.

Import JsonFacts MergeFacts.

Lemma dict_get_is_Some (f : string) (d : dict) :
  f ∈ d.*1 -> exists v, dict_get f d = Some v.
Proof.
  intros Hf. destruct (dict_get f d) as [v|] eqn:Hg; [eauto|].
  by apply dict_get_None in Hg.
Qed.

Lemma writes_cons (k : key) (f : string) (n : dict) (rest : list value) :
  writes k f (VDict n :: rest) ->
  (record_key (VDict n) = inr k /\ f ∈ n.*1) \/ writes k f rest.
Proof.
  intros (n' & Hin & Hk & Hf). apply elem_of_cons in Hin as [[= ->]|Hin].
  - by left.
  - right. by exists n'.
Qed.

Lemma writes_head (k : key) (f : string) (n : dict) (rest : list value) :
  record_key (VDict n) = inr k -> f ∈ n.*1 -> writes k f (VDict n :: rest).
Proof. intros Hk Hf. exists n. split; [left|done]. Qed.

(** Two names never share a record. *)
Lemma index_ok_inj (st : state) (k1 k2 : key) (i : nat) :
  index_ok st ->
  exercise_map st !! k1 = Some i -> exercise_map st !! k2 = Some i -> k1 = k2.
Proof.
  intros Hok H1 H2.
  destruct (indexed_data_is_list st k1 i Hok H1) as [l Hl].
  destruct (index_ok_target _ _ _ _ Hl Hok H1) as (d1 & Hi1 & Hk1 & _).
  destruct (index_ok_target _ _ _ _ Hl Hok H2) as (d2 & Hi2 & Hk2 & _).
  congruence.
Qed.

(** One turn keeps every field that is held, and its value too unless the
    item writes it. *)
Lemma step_holds (st st' : state) (r : value) (k : key) (f : string) (v : value) :
  index_ok st -> wf_record r -> step st r = inr st' ->
  holds st k f v ->
  exists v', holds st' k f v' /\ (v' = v \/ writes k f [r]).
Proof.
  intros Hok Hwf Hstep (l0 & i & d & Hl0 & Hm & Hi & Hf).
  destruct (step_cases _ _ _ Hstep)
    as (n & k' & l & -> & Hk' & Hl & [(i' & d' & Hm' & Hi' & ->)|[Hm' ->]]);
    assert (l0 = l) as -> by congruence.
  - destruct (decide (i' = i)) as [->|Hne].
    + assert (d' = d) as -> by congruence.
      assert (k' = k) as -> by (by apply (index_ok_inj st _ _ i)).
      exists (default v (dict_get f n)). split.
      * exists (<[i := VDict (dict_update d n)]> l), i, (dict_update d n).
        simpl. repeat split; [done| |].
        -- apply list_lookup_insert_eq. by apply lookup_lt_Some in Hi.
        -- rewrite dict_get_update by done. rewrite Hf.
           by destruct (dict_get f n).
      * destruct (dict_get f n) as [v2|] eqn:Hg; [|by left].
        right. apply writes_head; [done|].
        by apply dict_get_Some_elem in Hg.
    + exists v. split; [|by left].
      exists (<[i' := VDict (dict_update d' n)]> l), i, d.
      simpl. repeat split; [done| |done].
      by rewrite list_lookup_insert_ne.
  - exists v. split; [|by left].
    exists (l ++ [VDict n]), i, d. simpl. repeat split; [| |done].
    + rewrite lookup_insert_ne; [done|]. intros ->. congruence.
    + rewrite lookup_app_l; [done|]. by apply lookup_lt_Some in Hi.
Qed.

(** The same for the rest of the loop. *)
Lemma reconcile_holds (st st' : state) (post : list value)
    (k : key) (f : string) (v : value) :
  index_ok st -> Forall wf_record post -> reconcile st post = inr st' ->
  holds st k f v ->
  (exists v', holds st' k f v') /\ (holds st' k f v \/ writes k f post).
Proof.
  intros Hok Hwf. revert st v Hok.
  induction Hwf as [|r post Hr _ IH]; intros st v Hok H Hh; simpl in H.
  - injection H as <-. eauto.
  - res_inv.
    destruct (step_holds _ _ _ _ _ _ Hok Hr Ha Hh)
      as (v' & Hh' & [->|(n & Hin & Hk & Hf)]).
    + destruct (IH _ v (step_index_ok _ _ _ Hok Hr Ha) H Hh')
        as [Hex [Hkeep|(n & Hin & Hk & Hf)]].
      * by split; [|left].
      * split; [done|]. right. exists n. split; [by right | done].
    + destruct (IH _ v' (step_index_ok _ _ _ Hok Hr Ha) H Hh') as [Hex _].
      split; [done|]. right.
      apply list_elem_of_singleton in Hin as <-.
      exists n. split; [by left | done].
Qed.

(** After its turn, an item's fields are held under its name. *)
Lemma step_holds_item (st st' : state) (n : dict) (k : key) (f : string) (v : value) :
  wf_dict n -> step st (VDict n) = inr st' ->
  record_key (VDict n) = inr k -> dict_get f n = Some v ->
  holds st' k f v.
Proof.
  intros Hwf Hstep Hk Hf.
  destruct (step_cases _ _ _ Hstep)
    as (n' & k' & l & [= <-] & Hk' & Hl & [(i & d & Hm & Hi & ->)|[Hm ->]]);
    assert (k' = k) as -> by congruence.
  - exists (<[i := VDict (dict_update d n)]> l), i, (dict_update d n).
    simpl. repeat split; [done| |].
    + apply list_lookup_insert_eq. by apply lookup_lt_Some in Hi.
    + by rewrite dict_get_update, Hf.
  - exists (l ++ [VDict n]), (length l), n. simpl. repeat split; [| |done].
    + apply lookup_insert_eq.
    + by apply list_lookup_middle.
Qed.

(** What the loop leaves is settled for the items it ran over. *)
Lemma reconcile_settled (st st' : state) (items : list value) :
  index_ok st -> Forall wf_record items -> reconcile st items = inr st' ->
  settled st' items.
Proof.
  intros Hok Hwf Hrec pre n post k f v -> Hk Hf.
  apply reconcile_app in Hrec as (mid & Hpre & Hrest).
  apply Forall_app in Hwf as [Hwpre Hwrest].
  apply Forall_cons in Hwrest as [Hwn Hwpost].
  simpl in Hrest. apply res_bind_inr in Hrest as (st1 & Hstep & Hpost).
  assert (Hmid : index_ok mid) by eauto using reconcile_index_ok.
  assert (Hst1 : index_ok st1) by eauto using step_index_ok.
  apply (reconcile_holds st1 st' post k f v); [done..|].
  by apply (step_holds_item mid st1 n).
Qed.

Lemma settled_tail (st : state) (r : value) (rest : list value) :
  settled st (r :: rest) -> settled st rest.
Proof.
  intros H pre n post k f v -> Hk Hf.
  by apply (H (r :: pre) n post k f v).
Qed.

(** The items of a loop that did not raise are dicts with a name. *)
Lemma reconcile_keyed (st st' : state) (items : list value) :
  reconcile st items = inr st' ->
  Forall (fun r => exists n k, r = VDict n /\ record_key r = inr k) items.
Proof.
  revert st. induction items as [|r items IH]; intros st H; simpl in H.
  - constructor.
  - res_inv. constructor; [|eauto].
    destruct (step_cases _ _ _ Ha) as (n & k & _ & -> & Hk & _). eauto.
Qed.

Lemma reconcile_data_list (st st' : state) (items : list value) (l : list value) :
  reconcile st items = inr st' -> existing_data st = VList l ->
  exists l', existing_data st' = VList l'.
Proof.
  revert st l. induction items as [|r items IH]; intros st l H Hl; simpl in H.
  - injection H as <-. eauto.
  - res_inv.
    destruct (step_cases _ _ _ Ha)
      as (n & k & l1 & -> & Hk & Hl1 & [(i & d & Hm & Hi & ->)|[Hm ->]]);
      eapply IH; eauto.
Qed.

Lemma behind_refl (rest : list value) (m : gmap key nat) (l : list value) :
  behind rest m l l.
Proof. split; [done|]. intros i r rF Hr HrF. left. congruence. Qed.

(** With nothing left to write, nothing lags. *)
Lemma behind_nil (m : gmap key nat) (l lF : list value) :
  Forall wf_record lF -> behind [] m l lF -> l = lF.
Proof.
  intros Hwf [Hlen Hb]. apply list_eq_same_length with (length lF); [done..|].
  intros i r rF _ Hr HrF.
  destruct (Hb i r rF Hr HrF) as [->|(k & d & dF & _ & -> & -> & Hkeys & Hvals)];
    [done|].
  f_equal. symmetry. apply dict_ext.
  - rewrite Forall_lookup in Hwf. apply (Hwf _ _ HrF).
  - done.
  - intros f. destruct (Hvals f) as [Hf|(n & Hin & _)]; [done|].
    by apply elem_of_nil in Hin.
Qed.

(** Run over the same items again, a settled state comes back to itself,
    every turn being an update. *)
Lemma replay (F : state) (lF : list value) (rest : list value) :
  index_ok F -> existing_data F = VList lF -> Forall wf_record lF ->
  Forall wf_record rest ->
  Forall (fun r => exists n k, r = VDict n /\ record_key r = inr k) rest ->
  settled F rest ->
  forall (l : list value) (a u : nat),
    behind rest (exercise_map F) l lF ->
    reconcile {| existing_data := VList l; exercise_map := exercise_map F;
                 added_count := a; updated_count := u |} rest
    = inr {| existing_data := VList lF; exercise_map := exercise_map F;
             added_count := a; updated_count := u + length rest |}.
Proof.
  intros Hok HlF HwfF Hwf Hkeyed.
  induction Hkeyed as [|r rest (n & k & -> & Hk) _ IH];
    intros Hset l a u Hb; simpl.
  - rewrite (behind_nil _ _ _ HwfF Hb). by rewrite Nat.add_0_r.
  - apply Forall_cons in Hwf as [Hwn Hwf]. simpl in Hwn.
    destruct (record_key_inr _ _ Hk) as (n0 & name & [= <-] & Hname & _).
    (* the record of that name in [F], and the one being replayed *)
    destruct (Hset [] n rest k "name" name eq_refl Hk Hname)
      as [(v' & lF' & i & dF & HlF' & Hm & HiF & _) _].
    assert (lF' = lF) as -> by congruence.
    destruct Hb as [Hlen Hb].
    destruct (lookup_lt_is_Some_2 l i) as [rcur Hi].
    { rewrite Hlen. by apply lookup_lt_Some in HiF. }
    assert (Hcur : exists d, rcur = VDict d /\ lags (VDict n :: rest) k d dF).
    { destruct (Hb i rcur (VDict dF) Hi HiF)
        as [->|(k2 & d & dF2 & Hm2 & -> & [= <-] & Hlag)].
      - exists dF. split; [done|]. split; [done|]. by left.
      - exists d. split; [done|].
        by rewrite (index_ok_inj F k k2 i Hok Hm Hm2). }
    destruct Hcur as (d & -> & Hkeys & Hvals).
    (* every field of the item is already there *)
    assert (Hsub : forall f, f ∈ n.*1 -> f ∈ d.*1).
    { intros f Hf. apply dict_get_is_Some in Hf as [v Hv].
      destruct (Hset [] n rest k f v eq_refl Hk Hv)
        as [(v2 & lF2 & i' & dF' & HlF2 & Hm' & HiF' & Hget) _].
      assert (lF2 = lF) as -> by congruence.
      assert (i' = i) as -> by congruence.
      assert (dF' = dF) as -> by congruence.
      rewrite Hkeys. by apply dict_get_Some_elem in Hget. }
    rewrite (step_update _ l n d k i) by done. simpl.
    rewrite IH; [by rewrite Nat.add_succ_comm | done | by eapply settled_tail |].
    split; [by rewrite length_insert|].
    intros i0 r0 rF0 Hr0 HrF0.
    destruct (decide (i0 = i)) as [->|Hne].
    + rewrite list_lookup_insert_eq in Hr0 by (by apply lookup_lt_Some in Hi).
      injection Hr0 as <-. assert (rF0 = VDict dF) as -> by congruence.
      right. exists k, (dict_update d n), dF. repeat split; [done| |].
      * by rewrite dict_update_keys.
      * intros f. rewrite dict_get_update by done.
        destruct (dict_get f n) as [v|] eqn:Hv.
        -- destruct (Hset [] n rest k f v eq_refl Hk Hv)
             as [_ [Hkeep|Hw]]; [|by right].
           left.
           destruct Hkeep as (lF2 & i' & dF' & HlF2 & Hm' & HiF' & Hget).
           assert (lF2 = lF) as -> by congruence.
           assert (i' = i) as -> by congruence.
           assert (dF' = dF) as -> by congruence.
           done.
        -- destruct (Hvals f) as [Hf|Hw]; [by left|].
           apply writes_cons in Hw as [[_ Hf]|Hw]; [|by right].
           apply dict_get_None in Hv. done.
    + rewrite list_lookup_insert_ne in Hr0 by done.
      destruct (Hb i0 r0 rF0 Hr0 HrF0)
        as [->|(k2 & d2 & dF2 & Hm2 & -> & -> & Hkeys2 & Hvals2)]; [by left|].
      right. exists k2, d2, dF2. repeat split; [done..|].
      intros f. destruct (Hvals2 f) as [Hf|Hw]; [by left|].
      apply writes_cons in Hw as [[Hk2 _]|Hw]; [|by right].
      assert (k2 = k) as -> by congruence. congruence.
Qed.

End ReplayFacts.

(* ===================================================================== *)
(** ** The script on a store *)
(* ===================================================================== *)

Module StoreFacts.

Import JsonFacts MergeFacts.

Lemma backup_not_primary : BACKUP_FILE ≠ EXERCISES_FILE.
Proof. discriminate. Qed.

Lemma incoming_not_primary : NEW_EXERCISES_FILE ≠ EXERCISES_FILE.
Proof. discriminate. Qed.

Lemma incoming_not_backup : NEW_EXERCISES_FILE ≠ BACKUP_FILE.
Proof. discriminate. Qed.

Section Script.

Variable json_loads : string -> res value.
Variable json_dumps : value -> string.

Lemma load_primary_eq (fs : store) :
  io_try (load_json json_loads EXERCISES_FILE)
         [Exn.FileNotFoundError; Exn.JSONDecodeError]
         (io_ret (VList [])) fs
  = (loaded_primary json_loads fs, fs).
Proof.
  unfold io_try, load_json, io_bind, read_text, io_lift, io_ret, loaded_primary.
  destruct (fs !! EXERCISES_FILE) as [txt|]; [|reflexivity].
  destruct (json_loads txt) as [e|v]; [|reflexivity].
  by destruct (Exn.caught_by _ e).
Qed.

Lemma load_incoming_eq (fs : store) :
  load_json json_loads NEW_EXERCISES_FILE fs = (loaded_incoming json_loads fs, fs).
Proof.
  unfold load_json, io_bind, read_text, io_lift, loaded_incoming.
  by destruct (fs !! NEW_EXERCISES_FILE).
Qed.

(** The body computes in memory, then backs up, then writes. *)
Lemma merge_body_eq (fs : store) :
  merge_body json_loads json_dumps fs =
    match in_memory json_loads fs with
    | inl e => (inl e, fs)
    | inr st =>
        match fs !! EXERCISES_FILE with
        | None => (inl (no_such_file EXERCISES_FILE), fs)
        | Some txt =>
            (inr (MergeSuccessful (added_count st) (updated_count st)),
             <[EXERCISES_FILE := json_dumps (existing_data st)]>
               (<[BACKUP_FILE := txt]> fs))
        end
    end.
Proof.
  unfold merge_body, in_memory.
  unfold io_bind at 1. rewrite load_primary_eq.
  destruct (loaded_primary json_loads fs) as [e|data]; simpl; [done|].
  unfold io_bind at 1. unfold io_lift at 1.
  destruct (build_index data) as [e|index]; simpl; [done|].
  unfold io_bind at 1. rewrite load_incoming_eq.
  destruct (loaded_incoming json_loads fs) as [e|new_data]; simpl; [done|].
  unfold io_bind at 1. unfold io_lift at 1.
  destruct (py_iter new_data) as [e|items]; simpl; [done|].
  unfold io_bind at 1. unfold io_lift at 1.
  destruct (reconcile (start data index) items) as [e|st] eqn:Hrec;
    unfold start in Hrec; rewrite Hrec; simpl; [done|].
  unfold io_bind, copy2, write_text, io_ret.
  by destruct (fs !! EXERCISES_FILE).
Qed.

Lemma merge_exercises_eq (fs : store) :
  merge_exercises json_loads json_dumps fs =
    match in_memory json_loads fs with
    | inl e => Returned (ErrorMerging e) fs
    | inr st =>
        match fs !! EXERCISES_FILE with
        | None => Returned (ErrorMerging (no_such_file EXERCISES_FILE)) fs
        | Some txt =>
            Returned (MergeSuccessful (added_count st) (updated_count st))
              (<[EXERCISES_FILE := json_dumps (existing_data st)]>
                 (<[BACKUP_FILE := txt]> fs))
        end
    end.
Proof.
  unfold merge_exercises. rewrite merge_body_eq.
  destruct (in_memory json_loads fs) as [e|st].
  - by rewrite caught_by_Exception.
  - destruct (fs !! EXERCISES_FILE); [done|].
    by rewrite caught_by_Exception.
Qed.

(** A run that reports an error has written nothing. *)
Lemma error_leaves_store (fs fs' : store) (e : exn) :
  merge_exercises json_loads json_dumps fs = Returned (ErrorMerging e) fs' ->
  fs' = fs.
Proof.
  rewrite merge_exercises_eq.
  destruct (in_memory json_loads fs); [congruence|].
  destruct (fs !! EXERCISES_FILE); congruence.
Qed.

(** With a primary store that exists but does not parse, the fresh start
    works: the unparsable text is backed up and the new records are
    written. *)
Lemma unparsable_primary_fresh_start (fs : store) (old txt msg : string)
    (recs : list value) (ks : list key) :
  fs !! EXERCISES_FILE = Some old ->
  json_loads old = raise Exn.JSONDecodeError msg ->
  fs !! NEW_EXERCISES_FILE = Some txt ->
  json_loads txt = inr (VList recs) ->
  Forall2 (fun r k => record_key r = inr k) recs ks -> NoDup ks ->
  merge_exercises json_loads json_dumps fs =
    Returned (MergeSuccessful (length recs) 0)
      (<[EXERCISES_FILE := json_dumps (VList recs)]>
         (<[BACKUP_FILE := old]> fs)).
Proof.
  intros Hold Hbad Hnew Htxt Hkeys Hnd.
  rewrite merge_exercises_eq. unfold in_memory, loaded_primary, loaded_incoming.
  rewrite Hold, Hbad, Hnew, Htxt. simpl.
  destruct (reconcile_fresh _ _ Hkeys Hnd [] ∅ 0 0) as [m' Hrec].
  { intros k _. apply lookup_empty. }
  unfold start. rewrite Hrec. reflexivity.
Qed.

End Script.

End StoreFacts.

(* ===================================================================== *)
(** ** The reconcile loop: updates, additions, duplicate names *)
(* ===================================================================== *)

Module LoopSpec.

Import JsonFacts MergeFacts.

(** C4 (update). An incoming record [n] whose name is in the index is
    merged into the record the index leads to: the turn succeeds, the
    record stays at its position [i] of the primary list and becomes
    [d.update(n)], every field of [n] has [n]'s value in it, every field of
    [d] that [n] lacks keeps its value, no other position changes, the
    index is unchanged, the update count grows by one and the addition
    count stays. *)
Theorem update_overlays_in_place (st : state) (n : dict) (k : key) (i : nat) :
  index_ok st -> wf_dict n ->
  record_key (VDict n) = inr k ->
  exercise_map st !! k = Some i ->
  exists l d,
    existing_data st = VList l /\ l !! i = Some (VDict d) /\
    step st (VDict n) =
      inr {| existing_data := VList (<[i := VDict (dict_update d n)]> l);
             exercise_map := exercise_map st;
             added_count := added_count st;
             updated_count := S (updated_count st) |} /\
    (forall f v, dict_get f n = Some v -> dict_get f (dict_update d n) = Some v) /\
    (forall f, dict_get f n = None -> dict_get f (dict_update d n) = dict_get f d) /\
    <[i := VDict (dict_update d n)]> l !! i = Some (VDict (dict_update d n)) /\
    length (<[i := VDict (dict_update d n)]> l) = length l /\
    (forall j, j ≠ i -> <[i := VDict (dict_update d n)]> l !! j = l !! j).
Proof.
  intros Hok Hwf Hk Hm.
  destruct (indexed_data_is_list _ _ _ Hok Hm) as [l Hl].
  destruct (index_ok_target _ _ _ _ Hl Hok Hm) as (d & Hi & _ & _).
  exists l, d. split; [done|]. split; [done|].
  split; [by apply (step_update st l n d k i)|].
  split; [|split; [|split; [|split]]].
  - intros f v Hf. by rewrite dict_get_update, Hf.
  - intros f Hf. by rewrite dict_get_update, Hf.
  - apply list_lookup_insert_eq. by apply lookup_lt_Some in Hi.
  - apply length_insert.
  - intros j Hj. by apply list_lookup_insert_ne.
Qed.

(** C5 (addition). On a primary list [l], an incoming record whose name
    is not in the index is appended unchanged as the last item, entered in
    the index under its name with a reference to that last item, and
    counted as an addition only. A run of
    one update followed by one such record reports one update and one
    addition and ends with the new record last. *)
Theorem addition_appends_last (st : state) (l : list value) :
  existing_data st = VList l ->
  (forall r k,
     record_key r = inr k -> exercise_map st !! k = None ->
     step st r =
       inr {| existing_data := VList (l ++ [r]);
              exercise_map := <[k := length l]> (exercise_map st);
              added_count := S (added_count st);
              updated_count := updated_count st |} /\
     (l ++ [r]) !! length l = Some r) /\
  (forall upd new ku kn i,
     index_ok st ->
     record_key upd = inr ku -> exercise_map st !! ku = Some i ->
     record_key new = inr kn -> exercise_map st !! kn = None ->
     exists l',
       reconcile st [upd; new] =
         inr {| existing_data := VList (l' ++ [new]);
                exercise_map := <[kn := length l]> (exercise_map st);
                added_count := S (added_count st);
                updated_count := S (updated_count st) |} /\
       length l' = length l).
Proof.
  intros Hl. split.
  - intros r k Hk Hm. split; [by apply step_append|].
    by apply list_lookup_middle.
  - intros upd new ku kn i Hok Hku Hmu Hkn Hmn.
    destruct (record_key_inr _ _ Hku) as (n & name & -> & _ & _).
    destruct (index_ok_target _ _ _ _ Hl Hok Hmu) as (d & Hi & _ & _).
    exists (<[i := VDict (dict_update d n)]> l).
    simpl. rewrite (step_update st l n d ku i) by done. simpl.
    erewrite step_append; [|reflexivity|done|done]. simpl.
    by rewrite !length_insert.
Qed.

(** C10 (duplicate names). When the primary list holds a name at [i] and
    again at [j], [i < j], and nowhere after [j], the index leads from the
    name to [j]; an incoming record of that name is merged into the record
    at [j] alone: the record at [i] and every other record stay as they
    were, and the list keeps its length. *)
Theorem duplicate_names_update_last (st : state) (l : list value)
    (di dj n : dict) (k : key) (i j : nat) :
  existing_data st = VList l -> index_ok st ->
  i < j ->
  l !! i = Some (VDict di) -> record_key (VDict di) = inr k ->
  l !! j = Some (VDict dj) -> record_key (VDict dj) = inr k ->
  Forall (fun r => record_key r ≠ inr k) (drop (S j) l) ->
  record_key (VDict n) = inr k ->
  exercise_map st !! k = Some j /\
  exists l',
    step st (VDict n) =
      inr {| existing_data := VList l';
             exercise_map := exercise_map st;
             added_count := added_count st;
             updated_count := S (updated_count st) |} /\
    l' !! j = Some (VDict (dict_update dj n)) /\
    l' !! i = Some (VDict di) /\
    (forall p, p ≠ j -> l' !! p = l !! p) /\
    length l' = length l.
Proof.
  intros Hl Hok Hij Hi Hki Hj Hkj Hlast Hn.
  assert (Hm : exercise_map st !! k = Some j).
  { rewrite (index_ok_list _ _ Hl) in Hok.
    apply (index_items_last _ _ _ _ _ _ _ Hok Hj Hkj Hlast). }
  split; [done|].
  exists (<[j := VDict (dict_update dj n)]> l).
  split; [by apply (step_update st l n dj k j)|].
  split; [|split; [|split]].
  - apply list_lookup_insert_eq. by apply lookup_lt_Some in Hj.
  - rewrite list_lookup_insert_ne by lia. done.
  - intros p Hp. by apply list_lookup_insert_ne.
  - apply length_insert.
Qed.

(** The statements above on the sample states. *)

Lemma update_overlays_in_place_witness :
  step Fixture.primary_state Fixture.squat_new =
    inr {| existing_data := VList [Fixture.squat_merged; Fixture.plank];
           exercise_map := Fixture.primary_index;
           added_count := 0; updated_count := 1 |}.
Proof.
  destruct (update_overlays_in_place Fixture.primary_state
              [("name", VStr "Squat"); ("sets", VInt 5); ("reps", VInt 8)]
              (KStr "Squat") 0)
    as (l & d & Hl & Hi & Hstep & _).
  - reflexivity.
  - unfold wf_dict. compute_done.
  - reflexivity.
  - reflexivity.
  - injection Hl as <-. injection Hi as <-. exact Hstep.
Defined.

Lemma addition_appends_last_witness :
  step Fixture.primary_state Fixture.lunge =
    inr {| existing_data :=
             VList [Fixture.squat_old; Fixture.plank; Fixture.lunge];
           exercise_map := <[KStr "Lunge" := 2]> Fixture.primary_index;
           added_count := 1; updated_count := 0 |} /\
  exists l',
    reconcile Fixture.primary_state [Fixture.squat_new; Fixture.lunge] =
      inr {| existing_data := VList (l' ++ [Fixture.lunge]);
             exercise_map := <[KStr "Lunge" := 2]> Fixture.primary_index;
             added_count := 1; updated_count := 1 |} /\
    length l' = 2.
Proof.
  destruct (addition_appends_last Fixture.primary_state
              [Fixture.squat_old; Fixture.plank] eq_refl) as [Hadd Hmixed].
  split.
  - apply (Hadd Fixture.lunge (KStr "Lunge")); reflexivity.
  - apply (Hmixed Fixture.squat_new Fixture.lunge (KStr "Squat") (KStr "Lunge") 0);
      reflexivity.
Defined.

Lemma duplicate_names_update_last_witness :
  exercise_map Fixture.twice_state !! KStr "Squat" = Some 2 /\
  exists l',
    step Fixture.twice_state Fixture.squat_new =
      inr {| existing_data := VList l';
             exercise_map := Fixture.twice_index;
             added_count := 0; updated_count := 1 |} /\
    l' !! 2 = Some Fixture.squat_merged /\
    l' !! 0 = Some Fixture.squat.
Proof.
  destruct (duplicate_names_update_last Fixture.twice_state
              [Fixture.squat; Fixture.plank; Fixture.squat_old]
              [("name", VStr "Squat"); ("sets", VInt 3)]
              [("name", VStr "Squat"); ("sets", VInt 1); ("note", VStr "warm up")]
              [("name", VStr "Squat"); ("sets", VInt 5); ("reps", VInt 8)]
              (KStr "Squat") 0 2)
    as (Hm & l' & Hstep & Hj & Hi & _).
  - reflexivity.
  - reflexivity.
  - lia.
  - reflexivity.
  - reflexivity.
  - reflexivity.
  - reflexivity.
  - constructor.
  - reflexivity.
  - split; [exact Hm|]. exists l'. repeat split; [exact Hstep|exact Hj|exact Hi].
Defined.

End LoopSpec.

(* ===================================================================== *)
(** ** Runs of the script *)
(* ===================================================================== *)

Module RunSpec.

Import JsonFacts MergeFacts StoreFacts.

Section Script.

Variable json_loads : string -> res value.
Variable json_dumps : value -> string.

(** C1 (fresh start). With no primary store and an incoming store of
    records with pairwise distinct names, the run does not succeed: the
    records are merged in memory, then [shutil.copy2] finds no file to
    back up, and the run ends on the report of that error with the store
    as it was, no primary store written. *)
Theorem fresh_start_stops_at_backup (fs : store) (txt : string)
    (recs : list value) (ks : list key) :
  fs !! EXERCISES_FILE = None ->
  fs !! NEW_EXERCISES_FILE = Some txt ->
  json_loads txt = inr (VList recs) ->
  Forall2 (fun r k => record_key r = inr k) recs ks -> NoDup ks ->
  merge_exercises json_loads json_dumps fs =
    Returned (ErrorMerging (no_such_file EXERCISES_FILE)) fs /\
  (exists index,
     in_memory json_loads fs =
       inr {| existing_data := VList recs; exercise_map := index;
              added_count := length recs; updated_count := 0 |}).
Proof.
  intros Hold Hnew Htxt Hkeys Hnd.
  destruct (reconcile_fresh _ _ Hkeys Hnd [] ∅ 0 0) as [m' Hrec].
  { intros k _. apply lookup_empty. }
  assert (Hmem : in_memory json_loads fs =
    inr {| existing_data := VList recs; exercise_map := m';
           added_count := length recs; updated_count := 0 |}).
  { unfold in_memory, loaded_primary, loaded_incoming.
    rewrite Hold, Hnew, Htxt. simpl. unfold start. by rewrite Hrec. }
  split; [|eauto].
  rewrite merge_exercises_eq, Hmem. by rewrite Hold.
Qed.

(** C2 (backup on a fresh start). With no primary store the backup step
    is not skipped: [shutil.copy2] raises, and the run ends on an error
    report with the store as it was. *)
Theorem absent_primary_backup_raises (fs : store) :
  fs !! EXERCISES_FILE = None ->
  copy2 EXERCISES_FILE BACKUP_FILE fs = (inl (no_such_file EXERCISES_FILE), fs) /\
  exists e,
    merge_exercises json_loads json_dumps fs = Returned (ErrorMerging e) fs.
Proof.
  intros Hold. split.
  - unfold copy2. by rewrite Hold.
  - rewrite merge_exercises_eq. rewrite Hold.
    destruct (in_memory json_loads fs); eauto.
Qed.

(** C3 (incoming store failure). If the incoming store is missing, or
    [json.load] raises on it, the run ends on an error report and the
    store is what it was: the primary store, the backup path and every
    other file. *)
Theorem incoming_failure_leaves_store (fs : store) :
  fs !! NEW_EXERCISES_FILE = None \/
  (exists txt e, fs !! NEW_EXERCISES_FILE = Some txt /\ json_loads txt = inl e) ->
  exists e,
    merge_exercises json_loads json_dumps fs = Returned (ErrorMerging e) fs.
Proof.
  intros Hnew. rewrite merge_exercises_eq.
  assert (Hinc : exists e, loaded_incoming json_loads fs = inl e).
  { unfold loaded_incoming. destruct Hnew as [->|(txt & e & -> & ->)]; eauto. }
  destruct Hinc as [e Hinc].
  unfold in_memory.
  destruct (loaded_primary json_loads fs) as [e1|data]; simpl; [eauto|].
  destruct (build_index data) as [e2|index]; simpl; [eauto|].
  rewrite Hinc. simpl. eauto.
Qed.

(** C7 (backup fidelity, as amended). The backup is taken at line 45,
    after the in-memory merge. When the primary store holds [old] before a
    run and the in-memory merge does not raise, the run gets to its write;
    the backup path then holds [old] and the primary store holds the dump
    of the merged data. When the in-memory merge raises, the run stops
    before the backup and the write, and the store, backup path included,
    is as it was. *)
Theorem backup_holds_previous_primary (fs : store) (old : string) :
  fs !! EXERCISES_FILE = Some old ->
  (exists st fs',
     in_memory json_loads fs = inr st /\
     merge_exercises json_loads json_dumps fs =
       Returned (MergeSuccessful (added_count st) (updated_count st)) fs' /\
     fs' !! BACKUP_FILE = Some old /\
     fs' !! EXERCISES_FILE = Some (json_dumps (existing_data st))) \/
  (exists e,
     in_memory json_loads fs = inl e /\
     merge_exercises json_loads json_dumps fs = Returned (ErrorMerging e) fs).
Proof.
  intros Hold. rewrite merge_exercises_eq, Hold.
  destruct (in_memory json_loads fs) as [e|st]; [right; eauto|].
  left. eexists st, _. split; [done|]. split; [done|]. split.
  - rewrite lookup_insert_ne by (symmetry; apply backup_not_primary).
    apply lookup_insert_eq.
  - apply lookup_insert_eq.
Qed.

(** C8 (nothing propagates). Whatever the store holds, a call returns:
    either after the success line with its two counts, or after the error
    line, and then with the store untouched. No exception leaves the
    function. *)
Theorem merge_exercises_returns (fs : store) :
  (exists a u fs',
     merge_exercises json_loads json_dumps fs =
       Returned (MergeSuccessful a u) fs') \/
  (exists e,
     merge_exercises json_loads json_dumps fs = Returned (ErrorMerging e) fs).
Proof.
  rewrite merge_exercises_eq.
  destruct (in_memory json_loads fs) as [e|st]; [eauto|].
  destruct (fs !! EXERCISES_FILE); eauto.
Qed.

(** C9 (record without a name). A primary record that is a dict without
    [name] ends the run on an error report with the store as it was, and
    the error is the [KeyError] of that lookup when the records before it
    have names. An incoming record without [name] that the loop reaches
    ends the run on that [KeyError], the store as it was. *)
Theorem missing_name_aborts (fs : store) (txt : string)
    (pre post : list value) (r : value) :
  lacks_name r ->
  (fs !! EXERCISES_FILE = Some txt ->
   json_loads txt = inr (VList (pre ++ r :: post)) ->
   exists e,
     merge_exercises json_loads json_dumps fs = Returned (ErrorMerging e) fs /\
     (Forall (fun x => exists k, record_key x = inr k) pre -> e = key_error)) /\
  (forall data index st,
     loaded_primary json_loads fs = inr data ->
     build_index data = inr index ->
     fs !! NEW_EXERCISES_FILE = Some txt ->
     json_loads txt = inr (VList (pre ++ r :: post)) ->
     reconcile (start data index) pre = inr st ->
     merge_exercises json_loads json_dumps fs =
       Returned (ErrorMerging key_error) fs).
Proof.
  intros Hr. split.
  - intros Hold Htxt. rewrite merge_exercises_eq.
    unfold in_memory, loaded_primary. rewrite Hold, Htxt. simpl.
    unfold build_index. simpl. rewrite index_items_app.
    destruct (index_items pre 0 ∅) as [e|m] eqn:Hpre; simpl.
    + exists e. split; [done|]. intros Hall. exfalso.
      clear -Hpre Hall. revert Hpre. generalize 0 (∅ : gmap key nat).
      induction Hall as [|x pre [k Hx] _ IH]; intros pos m; simpl; [done|].
      rewrite Hx. simpl. apply IH.
    + rewrite (record_key_lacks _ Hr). simpl. eauto.
  - intros data index st Hdata Hindex Hnew Htxt Hpre.
    rewrite merge_exercises_eq. unfold in_memory, loaded_incoming.
    rewrite Hdata. simpl. rewrite Hindex. simpl. rewrite Hnew, Htxt. simpl.
    assert (Hrec : reconcile (start data index) (pre ++ r :: post) = inl key_error).
    { clear -Hpre Hr. revert Hpre. generalize (start data index).
      induction pre as [|x pre IH]; intros s Hpre; simpl in *.
      - injection Hpre as ->. unfold step.
        fold (record_key r). destruct Hr as (d & -> & Hd).
        simpl. by rewrite Hd.
      - destruct (step s x) as [e|s']; simpl in *; [done|]. by apply IH. }
    by rewrite Hrec.
Qed.

Lemma py_iter_wf (v : value) (items : list value) :
  wf_records v -> py_iter v = inr items -> Forall wf_record items.
Proof.
  destruct v as [| | | |s|l|d]; simpl; intros Hwf H; try discriminate;
    injection H as <-; [|done|]; apply Forall_fmap, Forall_true; done.
Qed.

(** The loop run again, from the data and index the first run left. *)
Lemma reconcile_again (data : value) (index : gmap key nat)
    (items : list value) (F : state) :
  build_index data = inr index -> wf_records data -> Forall wf_record items ->
  reconcile (start data index) items = inr F ->
  build_index (existing_data F) = inr (exercise_map F) /\
  reconcile (start (existing_data F) (exercise_map F)) items
  = inr {| existing_data := existing_data F; exercise_map := exercise_map F;
           added_count := 0; updated_count := length items |}.
Proof.
  intros Hindex Hwf Hitems Hrec.
  assert (Hok0 : index_ok (start data index)) by done.
  assert (HokF : index_ok F) by eauto using reconcile_index_ok.
  split; [done|].
  destruct (existing_data F) as [| | | | |lF|] eqn:HF.
  6: { apply (ReplayFacts.replay F lF items); try done.
       - pose proof (reconcile_wf (start data index) _ _ Hwf Hitems Hrec) as HwfF.
         by rewrite HF in HwfF.
       - eauto using ReplayFacts.reconcile_keyed.
       - eauto using ReplayFacts.reconcile_settled.
       - apply ReplayFacts.behind_refl. }
  all: assert (Hnl : forall l, existing_data (start data index) ≠ VList l)
    by (intros l Hl;
        destruct (ReplayFacts.reconcile_data_list _ _ _ _ Hrec Hl) as [l' Hl'];
        congruence).
  all: by destruct (reconcile_not_list _ _ _ Hok0 Hnl Hrec) as [-> _].
Qed.

(** C6 (merging again). After a run that succeeded, on a store whose
    records hold each field once and whose written text loads back as the
    data that was dumped, a second run over the same incoming store
    succeeds, counts every incoming record as an update and none as an
    addition, and leaves in the primary store the text the first run
    wrote. *)
Theorem remerge_is_idempotent (fs fs1 : store) (a u : nat) :
  (forall data, loaded_primary json_loads fs = inr data -> wf_records data) ->
  (forall new_data,
     loaded_incoming json_loads fs = inr new_data -> wf_records new_data) ->
  (forall st, in_memory json_loads fs = inr st ->
     json_loads (json_dumps (existing_data st)) = inr (existing_data st)) ->
  merge_exercises json_loads json_dumps fs = Returned (MergeSuccessful a u) fs1 ->
  exists new_data items fs2,
    loaded_incoming json_loads fs = inr new_data /\
    loaded_incoming json_loads fs1 = inr new_data /\
    py_iter new_data = inr items /\
    merge_exercises json_loads json_dumps fs1 =
      Returned (MergeSuccessful 0 (length items)) fs2 /\
    fs2 !! EXERCISES_FILE = fs1 !! EXERCISES_FILE.
Proof.
  intros Hwf1 Hwf2 Hround. rewrite merge_exercises_eq.
  destruct (in_memory json_loads fs) as [e|F] eqn:Hmem; [discriminate|].
  destruct (fs !! EXERCISES_FILE) as [old|] eqn:Hold; [|discriminate].
  intros [= <- <- <-].
  specialize (Hround F eq_refl).
  unfold in_memory in Hmem.
  apply res_bind_inr in Hmem as (data & Hdata & Hmem).
  apply res_bind_inr in Hmem as (index & Hindex & Hmem).
  apply res_bind_inr in Hmem as (new_data & Hnew & Hmem).
  apply res_bind_inr in Hmem as (items & Hitems & Hrec).
  destruct (reconcile_again data index items F Hindex (Hwf1 _ Hdata)
              (py_iter_wf _ _ (Hwf2 _ Hnew) Hitems) Hrec) as [HindexF Hagain].
  set (fs1 := <[EXERCISES_FILE := json_dumps (existing_data F)]>
                (<[BACKUP_FILE := old]> fs)).
  assert (Hp1 : fs1 !! EXERCISES_FILE = Some (json_dumps (existing_data F)))
    by apply lookup_insert_eq.
  assert (Hn1 : loaded_incoming json_loads fs1 = inr new_data).
  { rewrite <- Hnew. unfold loaded_incoming, fs1.
    rewrite lookup_insert_ne by (symmetry; apply incoming_not_primary).
    rewrite lookup_insert_ne by (symmetry; apply incoming_not_backup). done. }
  exists new_data, items,
    (<[EXERCISES_FILE := json_dumps (existing_data F)]>
       (<[BACKUP_FILE := json_dumps (existing_data F)]> fs1)).
  split; [done|]. split; [done|]. split; [done|]. split.
  - rewrite merge_exercises_eq.
    assert (Hmem1 : in_memory json_loads fs1 =
      inr {| existing_data := existing_data F; exercise_map := exercise_map F;
             added_count := 0; updated_count := length items |}).
    { unfold in_memory, loaded_primary. rewrite Hp1, Hround. simpl.
      rewrite HindexF. simpl. rewrite Hn1. simpl. rewrite Hitems. simpl. done. }
    rewrite Hmem1, Hp1. done.
  - rewrite Hp1. apply lookup_insert_eq.
Qed.

End Script.

(** The statements above on the sample stores. *)

Lemma fresh_start_stops_at_backup_witness :
  merge_exercises Fixture.json_loads Fixture.dumps Fixture.fresh_store =
    Returned (ErrorMerging (no_such_file EXERCISES_FILE)) Fixture.fresh_store.
Proof.
  refine (proj1 (fresh_start_stops_at_backup Fixture.json_loads Fixture.dumps
                   Fixture.fresh_store (Fixture.dumps Fixture.incoming_doc)
                   [Fixture.squat_new; Fixture.lunge]
                   [KStr "Squat"; KStr "Lunge"] _ _ _ _ _)).
  - reflexivity.
  - reflexivity.
  - vm_compute. reflexivity.
  - repeat constructor.
  - compute_done.
Defined.

Lemma absent_primary_backup_raises_witness :
  exists e,
    merge_exercises Fixture.json_loads Fixture.dumps Fixture.fresh_store =
      Returned (ErrorMerging e) Fixture.fresh_store.
Proof.
  refine (proj2 (absent_primary_backup_raises Fixture.json_loads Fixture.dumps
                   Fixture.fresh_store _)).
  reflexivity.
Defined.

Lemma incoming_failure_leaves_store_witness :
  exists e,
    merge_exercises Fixture.json_loads Fixture.dumps Fixture.no_incoming_store =
      Returned (ErrorMerging e) Fixture.no_incoming_store.
Proof.
  apply (incoming_failure_leaves_store Fixture.json_loads Fixture.dumps).
  left. reflexivity.
Defined.

Lemma first_run_on_sample :
  merge_exercises Fixture.json_loads Fixture.dumps Fixture.full_store =
    Returned (MergeSuccessful 1 1) Fixture.merged_store.
Proof. vm_compute. reflexivity. Defined.

Lemma backup_holds_previous_primary_witness :
  exists fs',
    merge_exercises Fixture.json_loads Fixture.dumps Fixture.full_store =
      Returned (MergeSuccessful 1 1) fs' /\
    fs' !! BACKUP_FILE = Some (Fixture.dumps Fixture.primary_doc).
Proof.
  destruct (backup_holds_previous_primary Fixture.json_loads Fixture.dumps
              Fixture.full_store (Fixture.dumps Fixture.primary_doc))
    as [(st & fs' & Hmem & Hrun & Hbak & _)|(e & Hmem & _)].
  - reflexivity.
  - vm_compute in Hmem. injection Hmem as <-.
    exists fs'. split; [exact Hrun | exact Hbak].
  - vm_compute in Hmem. discriminate Hmem.
Defined.

(** C7 as first stated does not hold of every run that starts with a
    primary store: with the incoming store missing, the run stops at line
    21 and leaves no backup. *)
Lemma backup_absent_after_aborted_run :
  Fixture.no_incoming_store !! EXERCISES_FILE
    = Some (Fixture.dumps Fixture.primary_doc) /\
  merge_exercises Fixture.json_loads Fixture.dumps Fixture.no_incoming_store
    = Returned (ErrorMerging (no_such_file NEW_EXERCISES_FILE))
        Fixture.no_incoming_store /\
  Fixture.no_incoming_store !! BACKUP_FILE = None.
Proof.
  split; [reflexivity|]. split; [|reflexivity].
  rewrite merge_exercises_eq. reflexivity.
Qed.

Lemma nameless_lacks_name : lacks_name Fixture.nameless.
Proof. eexists. split; reflexivity. Defined.

Lemma missing_name_aborts_witness :
  merge_exercises Fixture.json_loads Fixture.dumps Fixture.broken_primary_store =
    Returned (ErrorMerging key_error) Fixture.broken_primary_store /\
  merge_exercises Fixture.json_loads Fixture.dumps Fixture.broken_incoming_store =
    Returned (ErrorMerging key_error) Fixture.broken_incoming_store.
Proof.
  split.
  - destruct (proj1 (missing_name_aborts Fixture.json_loads Fixture.dumps
                       Fixture.broken_primary_store
                       (Fixture.dumps Fixture.broken_doc)
                       [Fixture.squat] [Fixture.plank] Fixture.nameless
                       nameless_lacks_name))
      as (e & Hrun & He).
    + reflexivity.
    + vm_compute. reflexivity.
    + rewrite Hrun, He; [reflexivity|].
      repeat constructor. exists (KStr "Squat"). reflexivity.
  - refine (proj2 (missing_name_aborts Fixture.json_loads Fixture.dumps
                     Fixture.broken_incoming_store
                     (Fixture.dumps Fixture.broken_doc)
                     [Fixture.squat] [Fixture.plank] Fixture.nameless
                     nameless_lacks_name)
              Fixture.primary_doc Fixture.primary_index
              {| existing_data :=
                   VList [VDict [("name", VStr "Squat"); ("sets", VInt 3);
                                 ("note", VStr "warm up")];
                          Fixture.plank];
                 exercise_map := Fixture.primary_index;
                 added_count := 0; updated_count := 1 |} _ _ _ _ _).
    + vm_compute. reflexivity.
    + reflexivity.
    + reflexivity.
    + vm_compute. reflexivity.
    + reflexivity.
Defined.

Lemma remerge_is_idempotent_witness :
  exists fs2,
    merge_exercises Fixture.json_loads Fixture.dumps Fixture.merged_store =
      Returned (MergeSuccessful 0 2) fs2 /\
    fs2 !! EXERCISES_FILE = Fixture.merged_store !! EXERCISES_FILE.
Proof.
  destruct (remerge_is_idempotent Fixture.json_loads Fixture.dumps
              Fixture.full_store Fixture.merged_store 1 1)
    as (new_data & items & fs2 & Hnew & _ & Hitems & Hrun & Hsame).
  - intros data H. vm_compute in H. injection H as <-.
    repeat constructor; compute_done.
  - intros new_data H. vm_compute in H. injection H as <-.
    repeat constructor; compute_done.
  - intros st H. vm_compute in H. injection H as <-. vm_compute. reflexivity.
  - exact first_run_on_sample.
  - vm_compute in Hnew. injection Hnew as <-.
    injection Hitems as <-. exists fs2. split; [exact Hrun | exact Hsame].
Defined.

End RunSpec.

(* ===================================================================== *)
(** ** More on the reconcile loop *)
(* ===================================================================== *)

Module LoopExtra.

Import JsonFacts MergeFacts.

Lemma filter_not_in_snoc (keys fs : list string) (k : string) :
  k ∉ fs ->
  filter (fun f => f ∉ keys ++ [k]) fs = filter (fun f => f ∉ keys) fs.
Proof.
  induction fs as [|f fs IH]; intros Hk; [done|].
  apply not_elem_of_cons in Hk as [Hne Hk].
  destruct (decide (f ∈ keys)) as [Hin|Hout].
  - rewrite !filter_cons_False; [by apply IH| |].
    + intros Hf. by apply Hf.
    + intros Hf. apply Hf. apply elem_of_app. by left.
  - rewrite !filter_cons_True; [by rewrite IH|done|].
    rewrite not_elem_of_app, list_elem_of_singleton. split; [done|congruence].
Qed.

(** X1 (field order of an update). [d.update(n)] keeps the fields of [d]
    in their order and puts the fields of [n] that [d] lacks after them,
    in the order [n] has them. *)
Theorem update_keeps_field_order (d n : dict) :
  wf_dict n ->
  (dict_update d n).*1 = d.*1 ++ filter (fun f => f ∉ d.*1) n.*1.
Proof.
  unfold wf_dict. revert d.
  induction n as [|[k v] n IH]; intros d Hn.
  - by rewrite app_nil_r.
  - rewrite dict_update_cons. csimpl in *.
    apply NoDup_cons in Hn as [Hk Hn]. rewrite IH by done.
    destruct (decide (k ∈ d.*1)) as [Hin|Hout].
    + rewrite dict_set_keys_present by done.
      rewrite filter_cons_False by (intros ?; done). done.
    + rewrite dict_set_keys_absent by done.
      rewrite filter_cons_True by done.
      rewrite <- app_assoc. csimpl. do 2 f_equal.
      by apply filter_not_in_snoc.
Qed.

Lemma update_keeps_field_order_witness :
  (dict_update
     [("name", VStr "Squat"); ("sets", VInt 1); ("note", VStr "warm up")]
     [("reps", VInt 8); ("name", VStr "Squat"); ("sets", VInt 5)]).*1
  = ["name"; "sets"; "note"] ++ ["reps"].
Proof.
  apply (update_keeps_field_order
           [("name", VStr "Squat"); ("sets", VInt 1); ("note", VStr "warm up")]
           [("reps", VInt 8); ("name", VStr "Squat"); ("sets", VInt 5)]).
  unfold wf_dict. compute_done.
Defined.

(** X2 (counts). A loop that does not raise counts every incoming record
    once, as an addition or as an update, and the primary list grows by
    the number of additions. *)
Theorem reconcile_counts (st st' : state) (items : list value) :
  reconcile st items = inr st' ->
  added_count st' + updated_count st'
    = added_count st + updated_count st + length items /\
  added_count st <= added_count st' /\
  updated_count st <= updated_count st' /\
  forall l, existing_data st = VList l ->
    exists l', existing_data st' = VList l' /\
               length l' + added_count st = length l + added_count st'.
Proof.
  revert st. induction items as [|r items IH]; intros st H; simpl in H.
  - injection H as <-. simpl. repeat split; [lia..|]. eauto.
  - res_inv. destruct (IH _ H) as (Hsum & Ha' & Hu' & Hlen).
    destruct (step_cases _ _ _ Ha)
      as (n & k & l0 & -> & Hk & Hl0 & [(i & d & Hm & Hi & ->)|[Hm ->]]);
      simpl in *.
    + repeat split; [lia..|]. intros l Hl.
      destruct (Hlen _ eq_refl) as (l' & Hl' & Hgrow).
      exists l'. split; [done|]. rewrite length_insert in Hgrow.
      assert (l = l0) as -> by congruence. lia.
    + repeat split; [lia..|]. intros l Hl.
      destruct (Hlen _ eq_refl) as (l' & Hl' & Hgrow).
      exists l'. split; [done|]. rewrite length_app in Hgrow. simpl in Hgrow.
      assert (l = l0) as -> by congruence. lia.
Qed.

Lemma reconcile_counts_witness :
  added_count Samples.merged_state + updated_count Samples.merged_state
    = 0 + 0 + 2 /\
  exists l', existing_data Samples.merged_state = VList l' /\
             length l' + 0 = 2 + added_count Samples.merged_state.
Proof.
  destruct (reconcile_counts Fixture.primary_state Samples.merged_state
              [Fixture.squat_new; Fixture.lunge] eq_refl)
    as (Hsum & _ & _ & Hlen).
  split; [exact Hsum|].
  exact (Hlen [Fixture.squat_old; Fixture.plank] eq_refl).
Defined.

Lemma step_names (st st' : state) (r : value) (l : list value) (ks : list key) :
  index_ok st -> wf_record r ->
  existing_data st = VList l ->
  Forall2 (fun x k => record_key x = inr k) l ks ->
  step st r = inr st' ->
  exists l' new,
    existing_data st' = VList l' /\
    Forall2 (fun x k => record_key x = inr k) l' (ks ++ new) /\
    forall k, k ∈ new -> (k ∉ ks) /\ new = [k].
Proof.
  intros Hok Hwf Hl Hks Hstep.
  destruct (step_cases _ _ _ Hstep)
    as (n & k & l0 & -> & Hk & Hl0 & [(i & d & Hm & Hi & ->)|[Hm ->]]);
    assert (l0 = l) as -> by congruence.
  - exists (<[i := VDict (dict_update d n)]> l), [].
    split; [done|]. rewrite app_nil_r. split.
    + destruct (index_ok_target _ _ _ _ Hl Hok Hm) as (d' & Hi' & Hd & _).
      assert (d' = d) as -> by congruence.
      destruct (Forall2_lookup_l _ _ _ _ _ Hks Hi) as (k' & Hki & Hk').
      assert (k' = k) as -> by congruence.
      rewrite <- (list_insert_id ks i k) by done.
      apply Forall2_insert; [done|]. by apply record_key_update.
    + intros k' Hin. by apply elem_of_nil in Hin.
  - exists (l ++ [VDict n]), [k]. split; [done|]. split.
    + apply Forall2_app; [done|]. by constructor.
    + intros k' Hin. apply list_elem_of_singleton in Hin as ->.
      split; [|done]. intros Hin.
      rewrite (index_ok_list _ _ Hl) in Hok.
      destruct (index_items_None _ _ _ _ _ Hok Hm) as [_ Hnone].
      apply list_elem_of_lookup in Hin as [j Hj].
      destruct (Forall2_lookup_r _ _ _ _ _ Hks Hj) as (x & Hx & Hkx).
      rewrite Forall_lookup in Hnone. by destruct (Hnone _ _ Hx).
Qed.

(** X3 (names stay in place and stay unique). Over a primary list whose
    records carry the names [ks], a loop that does not raise leaves a list
    whose names are [ks] followed by the names it added: no record is
    removed, moved or renamed. If the names were pairwise distinct before,
    they are pairwise distinct after. *)
Theorem names_stay_unique (st st' : state) (items l : list value) (ks : list key) :
  index_ok st -> Forall wf_record items ->
  existing_data st = VList l ->
  Forall2 (fun x k => record_key x = inr k) l ks ->
  reconcile st items = inr st' ->
  exists l' new,
    existing_data st' = VList l' /\
    Forall2 (fun x k => record_key x = inr k) l' (ks ++ new) /\
    (NoDup ks -> NoDup (ks ++ new)).
Proof.
  intros Hok Hwf. revert st l ks Hok.
  induction Hwf as [|r items Hr _ IH]; intros st l ks Hok Hl Hks H; simpl in H.
  - injection H as <-. exists l, []. rewrite app_nil_r. by repeat split.
  - res_inv.
    destruct (step_names _ _ _ _ _ Hok Hr Hl Hks Ha) as (l1 & new1 & Hl1 & Hks1 & Hnew1).
    destruct (IH _ _ _ (step_index_ok _ _ _ Hok Hr Ha) Hl1 Hks1 H)
      as (l' & new & Hl' & Hks' & Hnd).
    exists l', (new1 ++ new). rewrite app_assoc. repeat split; [done..|].
    intros Hnd0. apply Hnd. apply NoDup_app. split; [done|].
    split.
    + intros k Hk Hin. by destruct (Hnew1 _ Hin) as [Hout _].
    + destruct new1 as [|k new1]; [constructor|].
      destruct (Hnew1 k) as [_ ->]; [left|]. apply NoDup_singleton.
Qed.

Lemma names_stay_unique_witness :
  exists l' new,
    existing_data Samples.merged_state = VList l' /\
    Forall2 (fun x k => record_key x = inr k) l'
            ([KStr "Squat"; KStr "Plank"] ++ new) /\
    NoDup ([KStr "Squat"; KStr "Plank"] ++ new).
Proof.
  destruct (names_stay_unique Fixture.primary_state Samples.merged_state
              [Fixture.squat_new; Fixture.lunge]
              [Fixture.squat_old; Fixture.plank]
              [KStr "Squat"; KStr "Plank"])
    as (l' & new & Hl' & Hks & Hnd).
  - reflexivity.
  - repeat constructor; compute_done.
  - reflexivity.
  - repeat constructor.
  - reflexivity.
  - exists l', new. split; [exact Hl'|]. split; [exact Hks|].
    apply Hnd. compute_done.
Defined.

(** X4 (records no incoming record names). A record of the primary list
    whose name no incoming record carries is, after the loop, the same
    record at the same position. *)
Theorem unnamed_records_untouched (st st' : state) (items l : list value)
    (i : nat) (r : value) (k : key) :
  index_ok st -> Forall wf_record items ->
  existing_data st = VList l ->
  l !! i = Some r -> record_key r = inr k ->
  Forall (fun x => record_key x ≠ inr k) items ->
  reconcile st items = inr st' ->
  exists l', existing_data st' = VList l' /\ l' !! i = Some r.
Proof.
  intros Hok Hwf. revert st l Hok.
  induction Hwf as [|x items Hx _ IH]; intros st l Hok Hl Hi Hr Hno H;
    simpl in H.
  - injection H as <-. eauto.
  - res_inv. apply Forall_cons in Hno as [Hxk Hno].
    pose proof (step_index_ok _ _ _ Hok Hx Ha) as Hok'.
    destruct (step_cases _ _ _ Ha)
      as (n & k' & l0 & -> & Hk' & Hl0 & [(i' & d & Hm & Hi' & ->)|[Hm ->]]);
      assert (l0 = l) as -> by congruence.
    + apply (IH _ _ Hok' eq_refl); [|done..].
      rewrite list_lookup_insert_ne; [done|]. intros ->.
      destruct (index_ok_target _ _ _ _ Hl Hok Hm) as (d' & Hd' & Hkd & _).
      apply Hxk. congruence.
    + apply (IH _ _ Hok' eq_refl); [|done..].
      rewrite lookup_app_l; [done|]. by apply lookup_lt_Some in Hi.
Qed.

Lemma unnamed_records_untouched_witness :
  exists l',
    existing_data Samples.merged_state = VList l' /\
    l' !! 1 = Some Fixture.plank.
Proof.
  apply (unnamed_records_untouched Fixture.primary_state Samples.merged_state
           [Fixture.squat_new; Fixture.lunge]
           [Fixture.squat_old; Fixture.plank] 1 Fixture.plank (KStr "Plank")).
  - reflexivity.
  - repeat constructor; compute_done.
  - reflexivity.
  - reflexivity.
  - reflexivity.
  - repeat constructor; discriminate.
  - reflexivity.
Defined.

(** X5 (a new name given twice). Two incoming records of one name that the
    index does not hold end as a single record at the end of the primary
    list, the first with the second merged into it: one addition and one
    update. *)
Theorem repeated_new_name_accumulates (st : state) (l : list value)
    (n1 n2 : dict) (k : key) :
  existing_data st = VList l ->
  record_key (VDict n1) = inr k -> record_key (VDict n2) = inr k ->
  exercise_map st !! k = None ->
  reconcile st [VDict n1; VDict n2] =
    inr {| existing_data := VList (l ++ [VDict (dict_update n1 n2)]);
           exercise_map := <[k := length l]> (exercise_map st);
           added_count := S (added_count st);
           updated_count := S (updated_count st) |}.
Proof.
  intros Hl Hk1 Hk2 Hm. simpl.
  rewrite (step_append st l (VDict n1) k) by done. simpl.
  erewrite (step_update _ (l ++ [VDict n1]) n2 n1 k (length l));
    [|reflexivity|done|apply lookup_insert_eq|by apply list_lookup_middle].
  simpl. do 3 f_equal.
  rewrite insert_app_r_alt by lia. by rewrite Nat.sub_diag.
Qed.

Lemma repeated_new_name_accumulates_witness :
  reconcile Fixture.primary_state [Fixture.lunge; Samples.lunge_more] =
    inr {| existing_data :=
             VList [Fixture.squat_old; Fixture.plank;
                    VDict [("name", VStr "Lunge"); ("sets", VInt 2);
                           ("reps", VInt 12)]];
           exercise_map := <[KStr "Lunge" := 2]> Fixture.primary_index;
           added_count := 1; updated_count := 1 |}.
Proof.
  apply (repeated_new_name_accumulates Fixture.primary_state
           [Fixture.squat_old; Fixture.plank]
           [("name", VStr "Lunge"); ("sets", VInt 2)]
           [("reps", VInt 12); ("name", VStr "Lunge")] (KStr "Lunge"));
    reflexivity.
Defined.

(** X6 (the last incoming value wins). After a loop that did not raise,
    a field of an incoming record is in the record the index keeps under
    that record's name, with the incoming value, unless a later incoming
    record of the same name has the field too. *)
Theorem last_write_wins (st st' : state) (pre post : list value) (n : dict)
    (k : key) (f : string) (v : value) :
  index_ok st -> Forall wf_record (pre ++ VDict n :: post) ->
  reconcile st (pre ++ VDict n :: post) = inr st' ->
  record_key (VDict n) = inr k ->
  dict_get f n = Some v ->
  (forall n', VDict n' ∈ post -> record_key (VDict n') = inr k ->
              dict_get f n' = None) ->
  exists l i d,
    existing_data st' = VList l /\ exercise_map st' !! k = Some i /\
    l !! i = Some (VDict d) /\ dict_get f d = Some v.
Proof.
  intros Hok Hwf Hrec Hk Hf Hlater.
  destruct (ReplayFacts.reconcile_settled _ _ _ Hok Hwf Hrec
              pre n post k f v eq_refl Hk Hf) as [_ [Hh|Hw]]; [exact Hh|].
  destruct Hw as (n' & Hin & Hk' & Hf').
  apply dict_get_None in Hf'; [done|]. by apply Hlater.
Qed.

Lemma last_write_wins_witness :
  exists l i d,
    existing_data Samples.merged_state = VList l /\
    exercise_map Samples.merged_state !! KStr "Squat" = Some i /\
    l !! i = Some (VDict d) /\ dict_get "sets" d = Some (VInt 5).
Proof.
  apply (last_write_wins Fixture.primary_state Samples.merged_state
           [] [Fixture.lunge]
           [("name", VStr "Squat"); ("sets", VInt 5); ("reps", VInt 8)]
           (KStr "Squat") "sets" (VInt 5)).
  - reflexivity.
  - repeat constructor; compute_done.
  - reflexivity.
  - reflexivity.
  - reflexivity.
  - intros n' Hin Hk'. apply list_elem_of_singleton in Hin.
    injection Hin as ->. vm_compute in Hk'. discriminate Hk'.
Defined.

(** X7 (new records keep the incoming order). Incoming records whose
    names are new and differ from one another are appended to the primary
    list in the order the incoming store has them, each counted as an
    addition. *)
Theorem new_records_append_in_order (st : state) (l recs : list value)
    (ks : list key) :
  existing_data st = VList l ->
  Forall2 (fun r k => record_key r = inr k) recs ks -> NoDup ks ->
  (forall k, k ∈ ks -> exercise_map st !! k = None) ->
  exists index,
    reconcile st recs =
      inr {| existing_data := VList (l ++ recs); exercise_map := index;
             added_count := added_count st + length recs;
             updated_count := updated_count st |}.
Proof.
  intros Hl Hks Hnd Hm. destruct st as [data m a u]. simpl in *. subst data.
  apply (reconcile_fresh recs ks Hks Hnd l m a u Hm).
Qed.

Lemma new_records_append_in_order_witness :
  exists index,
    reconcile Fixture.primary_state [Fixture.lunge; Samples.pushup] =
      inr {| existing_data :=
               VList ([Fixture.squat_old; Fixture.plank]
                        ++ [Fixture.lunge; Samples.pushup]);
             exercise_map := index;
             added_count := 0 + 2; updated_count := 0 |}.
Proof.
  apply (new_records_append_in_order Fixture.primary_state
           [Fixture.squat_old; Fixture.plank]
           [Fixture.lunge; Samples.pushup] [KStr "Lunge"; KStr "Push-up"]).
  - reflexivity.
  - repeat constructor.
  - compute_done.
  - intros k Hk. apply elem_of_cons in Hk as [->|Hk]; [reflexivity|].
    apply list_elem_of_singleton in Hk as ->. reflexivity.
Defined.

End LoopExtra.

(* ===================================================================== *)
(** ** More on runs of the script *)
(* ===================================================================== *)

Module RunExtra.

Import JsonFacts MergeFacts StoreFacts.

Lemma step_unkeyed (st : state) (r : value) (e : exn) :
  record_key r = inl e -> step st r = inl e.
Proof.
  unfold record_key, step. intros H.
  destruct (py_getitem r "name") as [e'|name]; simpl in *; [congruence|].
  by rewrite H.
Qed.

Lemma reconcile_stops (st mid : state) (pre post : list value) (r : value) (e : exn) :
  reconcile st pre = inr mid -> step mid r = inl e ->
  reconcile st (pre ++ r :: post) = inl e.
Proof.
  revert st. induction pre as [|x pre IH]; intros st Hpre Hr; simpl in *.
  - injection Hpre as ->. by rewrite Hr.
  - destruct (step st x) as [e'|st1]; simpl in *; [done|]. by apply IH.
Qed.

Lemma index_items_stops (pre post : list value) (r : value) (e : exn)
    (pos : nat) (m : gmap key nat) :
  Forall (fun x => exists k, record_key x = inr k) pre ->
  record_key r = inl e ->
  index_items (pre ++ r :: post) pos m = inl e.
Proof.
  intros Hpre Hr. revert pos m.
  induction Hpre as [|x pre [k Hx] _ IH]; intros pos m; simpl.
  - by rewrite Hr.
  - rewrite Hx. simpl. apply IH.
Qed.

Section Script.

Variable json_loads : string -> res value.
Variable json_dumps : value -> string.

(** X8 (files the script leaves alone). Whatever a run does, the incoming
    store and every file other than the primary store and the backup path
    hold afterwards what they held before. *)
Theorem other_files_untouched (fs fs' : store) (line : printed) :
  merge_exercises json_loads json_dumps fs = Returned line fs' ->
  fs' !! NEW_EXERCISES_FILE = fs !! NEW_EXERCISES_FILE /\
  forall path, path ≠ EXERCISES_FILE -> path ≠ BACKUP_FILE ->
               fs' !! path = fs !! path.
Proof.
  rewrite merge_exercises_eq. intros H.
  assert (Hother : forall path, path ≠ EXERCISES_FILE -> path ≠ BACKUP_FILE ->
                                fs' !! path = fs !! path).
  { intros path Hp Hb.
    destruct (in_memory json_loads fs) as [e|st]; [congruence|].
    destruct (fs !! EXERCISES_FILE) as [old|]; [|congruence].
    injection H as _ <-. by rewrite !lookup_insert_ne. }
  split; [|done].
  apply Hother; [apply incoming_not_primary | apply incoming_not_backup].
Qed.

(** X9 (a primary store that does not parse). When the primary store
    exists and [json.load] raises on it an error the inner [except]
    catches, the run takes the primary list as empty: given incoming
    records of pairwise distinct names it succeeds, every record counted
    as an addition; the backup path then holds the text that did not
    parse and the primary store holds the incoming records. *)
Theorem unparsable_primary_is_replaced (fs : store) (old txt : string) (e : exn)
    (recs : list value) (ks : list key) :
  fs !! EXERCISES_FILE = Some old ->
  json_loads old = inl e ->
  Exn.caught_by [Exn.FileNotFoundError; Exn.JSONDecodeError] e = true ->
  fs !! NEW_EXERCISES_FILE = Some txt ->
  json_loads txt = inr (VList recs) ->
  Forall2 (fun r k => record_key r = inr k) recs ks -> NoDup ks ->
  merge_exercises json_loads json_dumps fs =
    Returned (MergeSuccessful (length recs) 0)
      (<[EXERCISES_FILE := json_dumps (VList recs)]>
         (<[BACKUP_FILE := old]> fs)).
Proof.
  intros Hold Hbad Hcaught Hnew Htxt Hkeys Hnd.
  rewrite merge_exercises_eq. unfold in_memory, loaded_primary, loaded_incoming.
  rewrite Hold, Hbad, Hcaught, Hnew, Htxt. simpl.
  destruct (reconcile_fresh _ _ Hkeys Hnd [] ∅ 0 0) as [m' Hrec].
  { intros k _. apply lookup_empty. }
  unfold start. rewrite Hrec. reflexivity.
Qed.

(** X10 (other errors on the primary store). When [json.load] raises on
    the primary store an error that is neither a [FileNotFoundError] nor a
    [JSONDecodeError], the inner [except] lets it through: the run ends on
    the report of that error and the store is as it was. *)
Theorem other_primary_errors_abort (fs : store) (txt : string) (e : exn) :
  fs !! EXERCISES_FILE = Some txt ->
  json_loads txt = inl e ->
  Exn.caught_by [Exn.FileNotFoundError; Exn.JSONDecodeError] e = false ->
  merge_exercises json_loads json_dumps fs = Returned (ErrorMerging e) fs.
Proof.
  intros Hold Hbad Hmiss. rewrite merge_exercises_eq.
  unfold in_memory, loaded_primary. by rewrite Hold, Hbad, Hmiss.
Qed.

(** X11 (nothing to merge). When the primary store exists, loads and
    indexes, and the incoming store holds nothing to iterate over, the run
    succeeds with both counts zero; the backup path then holds the
    previous primary text and the primary store is written again, as the
    dump of the data that was loaded. *)
Theorem empty_incoming_rewrites_primary (fs : store) (old : string)
    (data new_data : value) (index : gmap key nat) :
  fs !! EXERCISES_FILE = Some old ->
  loaded_primary json_loads fs = inr data ->
  build_index data = inr index ->
  loaded_incoming json_loads fs = inr new_data ->
  py_iter new_data = inr [] ->
  merge_exercises json_loads json_dumps fs =
    Returned (MergeSuccessful 0 0)
      (<[EXERCISES_FILE := json_dumps data]> (<[BACKUP_FILE := old]> fs)).
Proof.
  intros Hold Hdata Hindex Hnew Hitems. rewrite merge_exercises_eq.
  unfold in_memory. rewrite Hdata. simpl. rewrite Hindex. simpl.
  rewrite Hnew. simpl. rewrite Hitems. simpl. by rewrite Hold.
Qed.

(** X12 (an incoming store that is not a list). When the primary store
    loads and indexes and the incoming store parses to something other
    than a list, and not to an empty object or an empty string, the run
    ends on the report of a [TypeError] and the store is as it was. *)
Theorem incoming_not_a_list_is_rejected (fs : store) (data new_data : value)
    (index : gmap key nat) :
  loaded_primary json_loads fs = inr data ->
  build_index data = inr index ->
  loaded_incoming json_loads fs = inr new_data ->
  (forall l, new_data ≠ VList l) ->
  py_iter new_data ≠ inr [] ->
  exists msg,
    merge_exercises json_loads json_dumps fs =
      Returned (ErrorMerging (Exn.Raise Exn.TypeError msg)) fs.
Proof.
  intros Hdata Hindex Hnew Hnl Hne. rewrite merge_exercises_eq.
  unfold in_memory. rewrite Hdata. simpl. rewrite Hindex. simpl.
  rewrite Hnew. simpl.
  destruct new_data as [| | | |s|l|d]; simpl in *; eauto.
  - destruct (list_ascii_of_string s); simpl in *; [done|eauto].
  - by destruct (Hnl l).
  - destruct d; simpl in *; [done|eauto].
Qed.

(** X13 (a record whose name cannot be taken). A record on which the
    lookup of its name raises (it is not a dict, it has no [name], or its
    name is a list or an object) ends the run on the report of that error,
    the store as it was: in the primary store when the records before it
    have names, in the incoming store when the loop reaches it. *)
Theorem unkeyed_record_aborts (fs : store) (txt : string)
    (pre post : list value) (r : value) (e : exn) :
  record_key r = inl e ->
  (fs !! EXERCISES_FILE = Some txt ->
   json_loads txt = inr (VList (pre ++ r :: post)) ->
   Forall (fun x => exists k, record_key x = inr k) pre ->
   merge_exercises json_loads json_dumps fs = Returned (ErrorMerging e) fs) /\
  (forall data index st,
     loaded_primary json_loads fs = inr data ->
     build_index data = inr index ->
     fs !! NEW_EXERCISES_FILE = Some txt ->
     json_loads txt = inr (VList (pre ++ r :: post)) ->
     reconcile (start data index) pre = inr st ->
     merge_exercises json_loads json_dumps fs = Returned (ErrorMerging e) fs).
Proof.
  intros Hr. split.
  - intros Hold Htxt Hpre. rewrite merge_exercises_eq.
    unfold in_memory, loaded_primary. rewrite Hold, Htxt. simpl.
    unfold build_index. simpl.
    by rewrite (index_items_stops pre post r e 0 ∅ Hpre Hr).
  - intros data index st Hdata Hindex Hnew Htxt Hpre.
    rewrite merge_exercises_eq. unfold in_memory, loaded_incoming.
    rewrite Hdata. simpl. rewrite Hindex. simpl. rewrite Hnew, Htxt. simpl.
    by rewrite (reconcile_stops _ st pre post r e Hpre (step_unkeyed st r e Hr)).
Qed.

End Script.

(** The statements above on the sample stores. *)

Lemma other_files_untouched_witness :
  Fixture.merged_store !! NEW_EXERCISES_FILE
    = Fixture.full_store !! NEW_EXERCISES_FILE.
Proof.
  exact (proj1 (other_files_untouched Fixture.json_loads Fixture.dumps
                  Fixture.full_store Fixture.merged_store (MergeSuccessful 1 1)
                  RunSpec.first_run_on_sample)).
Defined.

Lemma unparsable_primary_is_replaced_witness :
  merge_exercises Samples.json_loads Fixture.dumps Samples.garbled_store =
    Returned (MergeSuccessful 2 0)
      (<[EXERCISES_FILE := Fixture.dumps Fixture.incoming_doc]>
         (<[BACKUP_FILE := "{oops"]> Samples.garbled_store)).
Proof.
  apply (unparsable_primary_is_replaced Samples.json_loads Fixture.dumps
           Samples.garbled_store "{oops" (Fixture.dumps Fixture.incoming_doc)
           (Exn.Raise Exn.JSONDecodeError
              "Expecting value: line 1 column 1 (char 0)")
           [Fixture.squat_new; Fixture.lunge] [KStr "Squat"; KStr "Lunge"]).
  - reflexivity.
  - vm_compute. reflexivity.
  - reflexivity.
  - reflexivity.
  - vm_compute. reflexivity.
  - repeat constructor.
  - compute_done.
Defined.

Lemma other_primary_errors_abort_witness :
  merge_exercises Samples.json_loads Fixture.dumps Samples.binary_store =
    Returned
      (ErrorMerging (Exn.Raise Exn.ValueError "'utf-8' codec can't decode byte 0xff"))
      Samples.binary_store.
Proof.
  apply (other_primary_errors_abort Samples.json_loads Fixture.dumps
           Samples.binary_store "binary").
  - reflexivity.
  - reflexivity.
  - reflexivity.
Defined.

Lemma empty_incoming_rewrites_primary_witness :
  merge_exercises Samples.json_loads Fixture.dumps Samples.empty_incoming_store =
    Returned (MergeSuccessful 0 0)
      (<[EXERCISES_FILE := Fixture.dumps Fixture.primary_doc]>
         (<[BACKUP_FILE := Fixture.dumps Fixture.primary_doc]>
            Samples.empty_incoming_store)).
Proof.
  apply (empty_incoming_rewrites_primary Samples.json_loads Fixture.dumps
           Samples.empty_incoming_store (Fixture.dumps Fixture.primary_doc)
           Fixture.primary_doc Samples.empty_doc Fixture.primary_index).
  - reflexivity.
  - vm_compute. reflexivity.
  - reflexivity.
  - vm_compute. reflexivity.
  - reflexivity.
Defined.

Lemma incoming_not_a_list_is_rejected_witness :
  exists msg,
    merge_exercises Samples.json_loads Fixture.dumps Samples.object_incoming_store =
      Returned (ErrorMerging (Exn.Raise Exn.TypeError msg))
        Samples.object_incoming_store.
Proof.
  apply (incoming_not_a_list_is_rejected Samples.json_loads Fixture.dumps
           Samples.object_incoming_store Fixture.primary_doc Samples.object_doc
           Fixture.primary_index).
  - vm_compute. reflexivity.
  - reflexivity.
  - vm_compute. reflexivity.
  - intros l. discriminate.
  - discriminate.
Defined.

Lemma listed_name_unkeyed :
  record_key Samples.listed_name
    = inl (Exn.Raise Exn.TypeError "unhashable type: 'list'").
Proof. reflexivity. Defined.

Lemma unkeyed_record_aborts_witness :
  merge_exercises Samples.json_loads Fixture.dumps Samples.odd_primary_store =
    Returned (ErrorMerging (Exn.Raise Exn.TypeError "unhashable type: 'list'"))
      Samples.odd_primary_store /\
  merge_exercises Samples.json_loads Fixture.dumps Samples.odd_incoming_store =
    Returned (ErrorMerging (Exn.Raise Exn.TypeError "unhashable type: 'list'"))
      Samples.odd_incoming_store.
Proof.
  split.
  - apply (proj1 (unkeyed_record_aborts Samples.json_loads Fixture.dumps
                    Samples.odd_primary_store (Fixture.dumps Samples.odd_doc)
                    [Fixture.squat] [] Samples.listed_name _
                    listed_name_unkeyed)).
    + reflexivity.
    + vm_compute. reflexivity.
    + repeat constructor. exists (KStr "Squat"). reflexivity.
  - refine (proj2 (unkeyed_record_aborts Samples.json_loads Fixture.dumps
                     Samples.odd_incoming_store (Fixture.dumps Samples.odd_doc)
                     [Fixture.squat] [] Samples.listed_name _
                     listed_name_unkeyed)
              Fixture.primary_doc Fixture.primary_index
              {| existing_data :=
                   VList [VDict [("name", VStr "Squat"); ("sets", VInt 3);
                                 ("note", VStr "warm up")];
                          Fixture.plank];
                 exercise_map := Fixture.primary_index;
                 added_count := 0; updated_count := 1 |} _ _ _ _ _).
    + vm_compute. reflexivity.
    + reflexivity.
    + reflexivity.
    + vm_compute. reflexivity.
    + reflexivity.
Defined.

End RunExtra.
